(** * The variable algebra and selection engine of utils/datavar.py

    A shallow embedding of [Var], [DataVar] and [_to_list] from
    [src/utils/datavar.py], together with the part of pandas they rely on.

    Conventions of the embedding.
    - A cell is an IEEE binary64 float; a missing value is NaN, as in pandas.
    - A table is a list of rows in row order, each row carrying its index label
      (the scenario identity, column "Name") and one cell per column label.
    - Reading a cell by label returns NaN where the label is absent, which is
      what pandas' reindexing gives before an element-wise operation.
    - Index labels and column labels are taken to identify rows and columns:
      a lookup returns the first match.  pandas' treatment of repeated labels
      (cartesian alignment) is outside the embedding, and so are values-table
      columns that are named like a metadata column or like the index.
    - Python raising an exception is a result [inl e]. *)

From Stdlib Require Import List String Bool Floats Permutation Sorted.
Import ListNotations.

Local Open Scope string_scope.
Local Open Scope list_scope.

(** ** Errors and the error monad *)

Inductive Error : Type :=
| AmbiguousConstruction (msg : string)   (* raise Exception("variable and values cannot both be ...") *)
| InvalidFilterValue (value : string)    (* raise KeyError(f"{v} is not a valid ...") *)
| NotImplementedFilter (axis : string)   (* raise NotImplementedError(...) *)
| IncompatibleYears (y1 y2 : list string) (* raise Exception(f"Years of left var ...") *)
| KeyError (label : string)              (* a pandas label lookup that fails *)
| ValueError (what : string).            (* float(y) on a token that is no number, and the like *)

Definition Result (A : Type) : Type := (Error + A)%type.

Definition ok {A} (a : A) : Result A := inr a.
Definition raise {A} (e : Error) : Result A := inl e.

Definition bind {A B} (m : Result A) (k : A -> Result B) : Result B :=
  match m with
  | inl e => inl e
  | inr a => k a
  end.

Notation "x <- m ;; k" := (bind m (fun x => k))
  (at level 61, m at next level, right associativity).

(** [for x in l: body(x)] where the body only raises or passes. *)
Fixpoint for_each {A} (body : A -> Result unit) (l : list A) : Result unit :=
  match l with
  | [] => ok tt
  | x :: t => _ <- body x ;; for_each body t
  end.

(** ** Labels *)

Definition mem (x : string) (l : list string) : bool :=
  existsb (String.eqb x) l.

Fixpoint list_eqb (a b : list string) : bool :=
  match a, b with
  | [], [] => true
  | x :: a', y :: b' => String.eqb x y && list_eqb a' b'
  | _, _ => false
  end.

(** The distinct labels of a list in order of first occurrence: the keys of a
    dict built from the list, or one iteration order of [set(l)]. *)
Fixpoint dedup (l : list string) : list string :=
  match l with
  | [] => []
  | x :: t => x :: filter (fun y => negb (String.eqb y x)) (dedup t)
  end.

(** [set(a) != set(b)] is the negation of this. *)
Definition set_eqb (a b : list string) : bool :=
  forallb (fun x => mem x b) a && forallb (fun x => mem x a) b.

Fixpoint assoc {A} (k : string) (l : list (string * A)) : option A :=
  match l with
  | [] => None
  | (k', v) :: t => if String.eqb k k' then Some v else assoc k t
  end.

Fixpoint insert_label (x : string) (l : list string) : list string :=
  match l with
  | [] => [x]
  | y :: t => if String.leb x y then x :: y :: t else y :: insert_label x t
  end.

Definition sort_labels (l : list string) : list string :=
  fold_right insert_label [] l.

(** The labels of an outer join of two axes: pandas keeps the axis when both
    are equal and otherwise takes the sorted union. *)
Definition label_union (a b : list string) : list string :=
  if list_eqb a b then a else sort_labels (dedup (a ++ b)).

(** ** Cells *)

Definition cell : Type := float.

(** One cell of [fillna(d)]. *)
Definition fill_cell (d : cell) (c : cell) : cell :=
  if is_nan c then d else c.

Inductive binop : Type := Add | Sub | Mul | Div.

Definition eval_op (op : binop) (a b : cell) : cell :=
  match op with
  | Add => (a + b)%float
  | Sub => (a - b)%float
  | Mul => (a * b)%float
  | Div => (a / b)%float
  end.

(** ** Tables: pandas DataFrame and Series indexed by scenario identity *)

Record Frame : Type := mkFrame {
  columns : list string;
  rows : list (string * list cell)
}.

Record Series : Type := mkSeries {
  sname : option string;          (* [Series.name]; [None] is Python's None *)
  items : list (string * cell)
}.

Inductive Values : Type :=
| VFrame (f : Frame)
| VSeries (s : Series).

Definition index (f : Frame) : list string := map fst (rows f).
Definition sindex (s : Series) : list string := map fst (items s).

Definition values_index (v : Values) : list string :=
  match v with
  | VFrame f => index f
  | VSeries s => sindex s
  end.

(** The cell of a row under a column label. *)
Definition row_cell (cols : list string) (cells : list cell) (y : string) : cell :=
  match assoc y (combine cols cells) with
  | Some c => c
  | None => nan
  end.

(** The cell of a frame at (scenario, year). *)
Definition frame_cell (f : Frame) (n y : string) : cell :=
  match assoc n (rows f) with
  | Some cells => row_cell (columns f) cells y
  | None => nan
  end.

(** The value of a series at a scenario. *)
Definition series_cell (s : Series) (n : string) : cell :=
  match assoc n (items s) with
  | Some c => c
  | None => nan
  end.

(** The row of a values table at a scenario: its cells in column order, a
    single cell for a series. *)
Definition values_row (v : Values) (n : string) : option (list cell) :=
  match v with
  | VFrame f => assoc n (rows f)
  | VSeries s => option_map (fun c => [c]) (assoc n (items s))
  end.

(** A frame given by its labels and a cell for each pair of labels. *)
Definition tabulate (idx cols : list string) (F : string -> string -> cell) : Frame :=
  mkFrame cols (map (fun n => (n, map (fun y => F n y) cols)) idx).

Definition stabulate (name : option string) (idx : list string) (F : string -> cell) : Series :=
  mkSeries name (map (fun n => (n, F n)) idx).

(** [df[ys]] for a list of column labels: the columns in the order asked,
    KeyError on a label that is no column. *)
Fixpoint check_labels (cols ys : list string) : Result unit :=
  match ys with
  | [] => ok tt
  | y :: t => if mem y cols then check_labels cols t else raise (KeyError y)
  end.

Definition frame_getitem_list (f : Frame) (ys : list string) : Result Frame :=
  _ <- check_labels (columns f) ys ;;
  ok (mkFrame ys (map (fun r => (fst r, map (row_cell (columns f) (snd r)) ys)) (rows f))).

(** [df[y]] for one column label: the column as a series named [y]. *)
Definition frame_getitem (f : Frame) (y : string) : Result Series :=
  if mem y (columns f)
  then ok (mkSeries (Some y) (map (fun r => (fst r, row_cell (columns f) (snd r) y)) (rows f)))
  else raise (KeyError y).

(** The value a series holds for a label of another index, missing when it
    holds none. *)
Definition aligned (s : list (string * cell)) (n : string) : cell :=
  match assoc n s with
  | Some c => c
  | None => nan
  end.

(** [df[y] = s]: the series is aligned on the index of the frame; a new label
    becomes the last column, an existing one is overwritten in place. *)
Definition frame_setitem (f : Frame) (y : string) (s : list (string * cell)) : Frame :=
  if mem y (columns f)
  then mkFrame (columns f)
         (map (fun r => (fst r,
                 map (fun y' => if String.eqb y' y then aligned s (fst r)
                                else row_cell (columns f) (snd r) y') (columns f)))
              (rows f))
  else mkFrame (columns f ++ [y])
         (map (fun r => (fst r, map (row_cell (columns f) (snd r)) (columns f) ++ [aligned s (fst r)]))
              (rows f)).

(** [values.fillna(d)]. *)
Definition fillna (d : cell) (v : Values) : Values :=
  match v with
  | VFrame f => VFrame (mkFrame (columns f) (map (fun r => (fst r, map (fill_cell d) (snd r))) (rows f)))
  | VSeries s => VSeries (mkSeries (sname s) (map (fun r => (fst r, fill_cell d (snd r))) (items s)))
  end.

(** A missing value somewhere in the table. *)
Definition has_missing (v : Values) : bool :=
  match v with
  | VFrame f => existsb (fun r => existsb is_nan (snd r)) (rows f)
  | VSeries s => existsb (fun r => is_nan (snd r)) (items s)
  end.

(** ** Element-wise arithmetic with label alignment *)

Definition option_string_eqb (a b : option string) : bool :=
  match a, b with
  | None, None => true
  | Some x, Some y => String.eqb x y
  | _, _ => false
  end.

Definition frame_binop (op : binop) (f g : Frame) : Frame :=
  tabulate (label_union (index f) (index g)) (label_union (columns f) (columns g))
    (fun n y => eval_op op (frame_cell f n y) (frame_cell g n y)).

(** The result keeps the name when both operands carry the same one. *)
Definition series_binop (op : binop) (s t : Series) : Series :=
  stabulate (if option_string_eqb (sname s) (sname t) then sname s else None)
    (label_union (sindex s) (sindex t))
    (fun n => eval_op op (series_cell s n) (series_cell t n)).

(** A frame against a series: pandas aligns the index of the series with the
    columns of the frame and repeats it on every row. *)
Definition frame_series_binop (op : binop) (f : Frame) (s : Series) : Frame :=
  tabulate (index f) (label_union (columns f) (sindex s))
    (fun n y => eval_op op (frame_cell f n y) (series_cell s y)).

Definition series_frame_binop (op : binop) (s : Series) (f : Frame) : Frame :=
  tabulate (index f) (label_union (columns f) (sindex s))
    (fun n y => eval_op op (series_cell s y) (frame_cell f n y)).

(** The right operand after harmonisation: a table or a plain number. *)
Inductive Harmonised : Type :=
| HValues (v : Values)
| HNumber (x : cell).

Definition values_number_binop (op : binop) (v : Values) (x : cell) : Values :=
  match v with
  | VFrame f => VFrame (mkFrame (columns f) (map (fun r => (fst r, map (fun c => eval_op op c x) (snd r))) (rows f)))
  | VSeries s => VSeries (mkSeries (sname s) (map (fun r => (fst r, eval_op op (snd r) x)) (items s)))
  end.

Definition values_binop (op : binop) (a : Values) (b : Harmonised) : Values :=
  match b with
  | HNumber x => values_number_binop op a x
  | HValues b =>
      match a, b with
      | VFrame f, VFrame g => VFrame (frame_binop op f g)
      | VSeries s, VSeries t => VSeries (series_binop op s t)
      | VFrame f, VSeries s => VFrame (frame_series_binop op f s)
      | VSeries s, VFrame f => VFrame (series_frame_binop op s f)
      end
  end.

(** [pd.DataFrame({year: values for year in years})]: the dict keeps one key
    per distinct year, in order of first insertion; an empty dict gives the
    empty frame.  Only a series can be a column. *)
Definition broadcast (years : list string) (v : Values) : Result Frame :=
  match dedup years with
  | [] => ok (mkFrame [] [])
  | cols =>
      match v with
      | VSeries s => ok (mkFrame cols (map (fun r => (fst r, map (fun _ => snd r) cols)) (items s)))
      | VFrame _ => raise (ValueError "a column must be one-dimensional")
      end
  end.

(** ** The scenario universe, the dataset and the fixed enumerations *)

(** One row of the scenarios table, as far as [select] reads it. *)
Record Scenario : Type := mkScenario {
  Category : option string;     (* "C1".."C8", [None] for a missing value *)
  IP : option string;
  SSP : option string;
  Vetted : bool
}.

(** The scenarios table, indexed by scenario identity, in row order. *)
Definition Universe : Type := list (string * Scenario).

(** One row of the dataset: its cells are one per known year. *)
Record DataRow : Type := mkDataRow {
  d_Name : string;
  d_Variable : string;
  d_Unit : string;
  d_years : list cell
}.

Definition Dataset : Type := list DataRow.

(** An entry of [IP_SCENARIOS] or [SSP_SCENARIOS]. *)
Record Marker : Type := mkMarker {
  name : string;
  scenario : string
}.

Definition keys {A} (d : list (string * A)) : list string := map fst d.

(** [d[k].scenario], KeyError when [k] is no key. *)
Definition canonical (d : list (string * Marker)) (k : string) : Result string :=
  match assoc k d with
  | Some m => ok (scenario m)
  | None => raise (KeyError k)
  end.

Fixpoint map_result {A B} (f : A -> Result B) (l : list A) : Result (list B) :=
  match l with
  | [] => ok []
  | x :: t => y <- f x ;; ys <- map_result f t ;; ok (y :: ys)
  end.

(** A filter or year argument: one token, or a list or tuple of tokens.
    Tokens are strings; [str] leaves a string as it is. *)
Inductive Arg : Type :=
| One (s : string)
| Many (l : list string).

Definition _to_list (value : Arg) (to_str : bool) : list string :=
  match value with
  | Many l => l
  | One s => [s]
  end.

Definition is_all (a : Arg) : bool :=
  match a with
  | One s => String.eqb s "all"
  | Many _ => false
  end.

Inductive Year : Type :=
| YSingle (y : string)
| YList (l : list string).

Record Var : Type := mkVar {
  data : Dataset;
  scenarios : Universe;
  vetted_scenarios : Universe;
  _variable : option string;
  _year : Year;
  _values : Values;
  default : option cell
}.

(** What [Var.__init__] does besides computing: the attributes it sets on the
    new object, the dataset rows it reads and the interpolations it asks for,
    in order. *)
Inductive Event : Type :=
| SetAttr (attr : string)
| DataLookup (variable : string) (years : list string)
| Interpolate (variable : string) (year : cell).

Definition Traced (A : Type) : Type := (list Event * Result A)%type.

Definition tret {A} (a : A) : Traced A := ([], ok a).
Definition traise {A} (e : Error) : Traced A := ([], raise e).
Definition emit (e : Event) : Traced unit := ([e], ok tt).
Definition lift {A} (r : Result A) : Traced A := ([], r).

Definition tbind {A B} (m : Traced A) (k : A -> Traced B) : Traced B :=
  match m with
  | (t, inl e) => (t, inl e)
  | (t, inr a) => (t ++ fst (k a), snd (k a))
  end.

Notation "x <~ m ;; k" := (tbind m (fun x => k))
  (at level 61, m at next level, right associativity).

(** [str(values.name)]. *)
Definition str_name (n : option string) : string :=
  match n with
  | Some s => s
  | None => "None"
  end.

Definition all_categories : list string :=
  ["C1"; "C2"; "C3"; "C4"; "C5"; "C6"; "C7"; "C8"].

(** [selection[extra_columns]], one row. *)
Definition meta_column (m : Scenario) (c : string) : option string :=
  if String.eqb c "Category" then Category m
  else if String.eqb c "IP" then IP m
  else if String.eqb c "SSP" then SSP m
  else None.

(** [u.loc[label]]: the rows under the label, KeyError when there is none. *)
Definition loc (u : Universe) (label : string) : Result Universe :=
  match filter (fun r => String.eqb (fst r) label) u with
  | [] => raise (KeyError label)
  | rs => ok rs
  end.

(** [column.isin(wanted)] on a metadata cell: a missing value is in no list of
    strings. *)
Definition isin (c : option string) (wanted : list string) : bool :=
  match c with
  | Some s => mem s wanted
  | None => false
  end.

(** ** The table [select] returns *)

Record SelRow : Type := mkSelRow {
  sel_key : list (option string);   (* the active metadata columns *)
  sel_name : string;                (* "Name" *)
  sel_cells : list cell
}.

Inductive Selected : Type :=
| SelFrame (index_names : list string) (cols : list string) (rws : list SelRow)
| SelSeries (series_name : string) (index_names : list string) (rws : list SelRow).

Definition sel_rows (s : Selected) : list SelRow :=
  match s with
  | SelFrame _ _ r => r
  | SelSeries _ _ r => r
  end.

(** The scenario identities of the rows returned. *)
Definition sel_names (s : Selected) : list string := map sel_name (sel_rows s).

(** Ascending order of a sort key, missing values last. *)
Definition opt_leb (a b : option string) : bool :=
  match a, b with
  | _, None => true
  | None, Some _ => false
  | Some x, Some y => String.leb x y
  end.

Fixpoint key_leb (a b : list (option string)) : bool :=
  match a, b with
  | x :: a', y :: b' => if option_string_eqb x y then key_leb a' b' else opt_leb x y
  | _, _ => true
  end.

Fixpoint insert_row (r : SelRow) (l : list SelRow) : list SelRow :=
  match l with
  | [] => [r]
  | r' :: t => if key_leb (sel_key r) (sel_key r') then r :: r' :: t
               else r' :: insert_row r t
  end.

(** [sort_values(extra_columns)]: rows with equal keys keep their order here;
    pandas leaves the order among them open when there is one key.  With no
    key the table is left as it is. *)
Definition sort_values (l : list SelRow) : list SelRow :=
  fold_right insert_row [] l.

(** [values[values.index.isin(selection.index)]], a series turned into a
    frame with the one column "value". *)
Definition subset_frame (v : Values) (selection : Universe) : Frame :=
  match v with
  | VFrame f => mkFrame (columns f) (filter (fun r => mem (fst r) (keys selection)) (rows f))
  | VSeries s => mkFrame ["value"]
                   (map (fun r => (fst r, [snd r]))
                        (filter (fun r => mem (fst r) (keys selection)) (items s)))
  end.

(** [.merge(selection[extra_columns], left_index=True, right_index=True,
    how="left")]: every row of the left table once per row of the selection
    under the same label, and once with missing metadata when there is none. *)
Definition merge_left (f : Frame) (selection : Universe) (extra_columns : list string)
  : list SelRow :=
  flat_map
    (fun r =>
       match filter (fun m => String.eqb (fst m) (fst r)) selection with
       | [] => [mkSelRow (map (fun _ => None) extra_columns) (fst r) (snd r)]
       | ms => map (fun m => mkSelRow (map (meta_column (snd m)) extra_columns) (fst r) (snd r)) ms
       end)
    (rows f).

Section Program.

(** The constants of [utils/constants.py] and the two helpers used from
    outside this file are parameters of the embedding. *)
Variable YEARS : list string.
Variable IP_SCENARIOS : list (string * Marker).
Variable SSP_SCENARIOS : list (string * Marker).

(** Modelled from the spec: [get_interp] of utils/data.py, the Interpolation
    Service, whose code is not among the modules embedded here.  The spec
    takes it as a black box that, given the dataset, a variable name and a
    year, returns one value per scenario; [get_interp data variable y] stands
    for the series [get_interp(data, None, [variable], y)[0].T.iloc[:, 0]]. *)
Variable get_interp : Dataset -> string -> cell -> list (string * cell).

(** Python's [float(token)]; [None] when it raises ValueError. *)
Variable py_float : string -> option cell.

(** [data[data["Variable"] == variable].set_index("Name")]: the year columns. *)
Definition variable_frame (data : Dataset) (variable : string) : Frame :=
  mkFrame YEARS
    (map (fun r => (d_Name r, d_years r))
         (filter (fun r => String.eqb (d_Variable r) variable) data)).

(** [for y in interp_years: self._values[y] = get_interp(...)]. *)
Fixpoint interpolate_years (data : Dataset) (variable : string)
    (interp_years : list string) (f : Frame) : Traced Frame :=
  match interp_years with
  | [] => tret f
  | y :: t =>
      match py_float y with
      | None => traise (ValueError y)
      | Some x =>
          _ <~ emit (Interpolate variable x) ;;
          interpolate_years data variable t (frame_setitem f y (get_interp data variable x))
      end
  end.

(** The last two statements of the constructor. *)
Definition set_default (self : Var) (default : option cell) : Traced Var :=
  _ <~ emit (SetAttr "default") ;;
  match default with
  | None =>
      tret (mkVar (data self) (scenarios self) (vetted_scenarios self)
                  (_variable self) (_year self) (_values self) None)
  | Some d =>
      _ <~ emit (SetAttr "_values") ;;
      tret (mkVar (data self) (scenarios self) (vetted_scenarios self)
                  (_variable self) (_year self) (fillna d (_values self)) (Some d))
  end.

Definition __init__ (data : Dataset) (scenarios vetted_scenarios : Universe)
    (variable : option string) (year : option Arg) (values : option Values)
    (default : option cell) : Traced Var :=
  _ <~ emit (SetAttr "data") ;;
  _ <~ emit (SetAttr "scenarios") ;;
  _ <~ emit (SetAttr "vetted_scenarios") ;;
  match variable, values with
  | None, None =>
      traise (AmbiguousConstruction "variable and values cannot both be None")
  | Some _, Some _ =>
      traise (AmbiguousConstruction "variable and values cannot both be defined")
  | Some variable, None =>
      _ <~ emit (SetAttr "_variable") ;;
      let year := match year with None => Many YEARS | Some y => y end in
      let to_series := match year with One _ => true | Many _ => false end in
      let year := _to_list year true in
      let _year := if to_series then YSingle (hd "" year) else YList year in
      _ <~ emit (SetAttr "_year") ;;
      let existing_years := dedup (filter (fun y => mem y YEARS) year) in
      let interp_years := dedup (filter (fun y => negb (mem y YEARS)) year) in
      _ <~ emit (DataLookup variable existing_years) ;;
      f <~ lift (frame_getitem_list (variable_frame data variable) existing_years) ;;
      _ <~ emit (SetAttr "_values") ;;
      f <~ interpolate_years data variable interp_years f ;;
      v <~ lift (match _year with
                 | YList l => f' <- frame_getitem_list f l ;; ok (VFrame f')
                 | YSingle y => s <- frame_getitem f y ;; ok (VSeries s)
                 end) ;;
      _ <~ emit (SetAttr "_values") ;;
      set_default (mkVar data scenarios vetted_scenarios (Some variable) _year v None) default
  | None, Some values =>
      let _year := match values with
                   | VSeries s => YSingle (str_name (sname s))
                   | VFrame f => YList (columns f)
                   end in
      _ <~ emit (SetAttr "_year") ;;
      _ <~ emit (SetAttr "_values") ;;
      set_default (mkVar data scenarios vetted_scenarios None _year values None) default
  end.

(** *** [Var.select] *)

(** The state of the filter: the selection and [extra_columns]. *)
Definition Filter : Type := (Universe * list string)%type.

Definition filter_category (category : option Arg) (st : Filter) : Result Filter :=
  match category with
  | None => ok st
  | Some category =>
      let category := if is_all category then Many all_categories else category in
      let category := _to_list category false in
      _ <- for_each (fun c => if mem c all_categories then ok tt
                              else raise (InvalidFilterValue c)) category ;;
      ok (filter (fun r => isin (Category (snd r)) category) (fst st),
          snd st ++ ["Category"])
  end.

Definition filter_ip (ip : option Arg) (st : Filter) : Result Filter :=
  match ip with
  | None => ok st
  | Some ip =>
      let ip := if is_all ip then Many (keys IP_SCENARIOS) else ip in
      let ip := _to_list ip false in
      _ <- for_each (fun v => if mem v (keys IP_SCENARIOS) then ok tt
                              else raise (InvalidFilterValue v)) ip ;;
      wanted <- map_result (canonical IP_SCENARIOS) ip ;;
      ok (filter (fun r => mem (fst r) wanted) (fst st), snd st ++ ["IP"])
  end.

(** [for v in ssp: if SSP_SCENARIOS[v].scenario not in selection.index:
    selection = selection.append(self.scenarios.loc[...])]. *)
Fixpoint add_unvetted (full : Universe) (ssp : list string) (selection : Universe)
  : Result Universe :=
  match ssp with
  | [] => ok selection
  | v :: t =>
      s <- canonical SSP_SCENARIOS v ;;
      if mem s (keys selection) then add_unvetted full t selection
      else extra <- loc full s ;; add_unvetted full t (selection ++ extra)
  end.

Definition filter_ssp (full : Universe) (ssp : option Arg) (st : Filter) : Result Filter :=
  match ssp with
  | None => ok st
  | Some ssp =>
      let ssp := if is_all ssp then Many (keys SSP_SCENARIOS) else ssp in
      let ssp := _to_list ssp false in
      _ <- for_each (fun v => if mem v (keys SSP_SCENARIOS) then ok tt
                              else raise (InvalidFilterValue v)) ssp ;;
      wanted <- map_result (canonical SSP_SCENARIOS) ssp ;;
      selection <- add_unvetted full ssp (filter (fun r => mem (fst r) wanted) (fst st)) ;;
      ok (selection, snd st ++ ["SSP"])
  end.

Definition not_implemented (axis : string) (arg : option unit) : Result unit :=
  match arg with
  | None => ok tt
  | Some _ => raise (NotImplementedFilter axis)
  end.

(** The three filters in turn, from the universe the [vetted] flag picks. *)
Definition apply_filters (self : Var) (category ip ssp : option Arg) (vetted : bool)
  : Result Filter :=
  let selection := if vetted then vetted_scenarios self else scenarios self in
  st <- filter_category category (selection, []) ;;
  st <- filter_ip ip st ;;
  filter_ssp (scenarios self) ssp st.

Definition select (self : Var) (category ip ssp : option Arg)
    (curpol ndc : option unit) (vetted : bool) : Result Selected :=
  st <- apply_filters self category ip ssp vetted ;;
  _ <- not_implemented "CurPol" curpol ;;
  _ <- not_implemented "NDC" ndc ;;
  let selection := fst st in
  let extra_columns := snd st in
  let subset_values := subset_frame (_values self) selection in
  let is_series := match _values self with VSeries _ => true | VFrame _ => false end in
  let sorted := sort_values (merge_left subset_values selection extra_columns) in
  let index_names := extra_columns ++ ["Name"] in
  if is_series
  then ok (SelSeries "value" index_names
             (map (fun r => mkSelRow (sel_key r) (sel_name r)
                              [row_cell (columns subset_values) (sel_cells r) "value"])
                  sorted))
  else ok (SelFrame index_names (columns subset_values) sorted).

(** *** Arithmetic *)

Inductive Operand : Type :=
| Number (x : cell)
| Variable_ (v : Var).

Definition _check_and_harmonise_inputs (self : Var) (other : Operand)
  : Result (Values * Harmonised) :=
  match other with
  | Number x => ok (_values self, HNumber x)
  | Variable_ other =>
      match _year self, _year other with
      | YList y1, YList y2 =>
          if negb (set_eqb y1 y2) then raise (IncompatibleYears y1 y2)
          else ok (_values self, HValues (_values other))
      | YList y1, YSingle _ =>
          harmonised_values2 <- broadcast y1 (_values other) ;;
          ok (_values self, HValues (VFrame harmonised_values2))
      | YSingle _, YList y2 =>
          harmonised_values1 <- broadcast y2 (_values self) ;;
          ok (VFrame harmonised_values1, HValues (_values other))
      | YSingle _, YSingle _ => ok (_values self, HValues (_values other))
      end
  end.

(** The body shared by the four operators. *)
Definition arith (op : binop) (self : Var) (other : Operand) : Result Var :=
  p <- _check_and_harmonise_inputs self other ;;
  let new_values := values_binop op (fst p) (snd p) in
  snd (__init__ (data self) (scenarios self) (vetted_scenarios self)
                None None (Some new_values) (default self)).

Definition __add__ := arith Add.
Definition __sub__ := arith Sub.
Definition __mul__ := arith Mul.
Definition __truediv__ := arith Div.

(** *** [DataVar] *)

Record DataVar : Type := mkDataVar {
  dv_data : Dataset;
  dv_scenarios : Universe;
  dv_vetted_scenarios : Universe
}.

Definition __call__ (self : DataVar) (variable : option string) (year : option Arg)
    (values : option Values) (default : option cell) : Traced Var :=
  __init__ (dv_data self) (dv_scenarios self) (dv_vetted_scenarios self)
           variable year values default.

End Program.

(** ** utils/importdata.py: unit conversion and derived variables *)

Definition VETTING_COL : string := "Vetting_historical".

(** [df.loc[mask, YEARS] *= factor]: the year cells of the rows under the
    mask, in place. *)
Definition scale_where (mask : DataRow -> bool) (factor : cell) (data : Dataset) : Dataset :=
  map (fun r => if mask r
                then mkDataRow (d_Name r) (d_Variable r) (d_Unit r)
                       (map (fun c => (c * factor)%float) (d_years r))
                else r) data.

(** [df.loc[df["Unit"] == unit, "Unit"] = new_unit]. *)
Definition set_unit_where (unit new_unit : string) (data : Dataset) : Dataset :=
  map (fun r => if String.eqb (d_Unit r) unit
                then mkDataRow (d_Name r) (d_Variable r) new_unit (d_years r)
                else r) data.

(** [data.loc[data["Variable"] == k, "Variable"] = v]. *)
Definition set_variable_where (k v : string) (data : Dataset) : Dataset :=
  map (fun r => if String.eqb (d_Variable r) k
                then mkDataRow (d_Name r) v (d_Unit r) (d_years r)
                else r) data.

(** The two statements that convert one unit.  The factor is the binary64
    value nearest to 0.001, as Python's literal is. *)
Definition convert_unit (unit new_unit : string) (data : Dataset) : Dataset :=
  set_unit_where unit new_unit
    (scale_where (fun r => String.eqb (d_Unit r) unit) 0.001%float data).

(** [_convert_units] changes the table in place; the function gives the table
    as it is afterwards. *)
Definition _convert_units (data : Dataset) : Dataset :=
  let data := convert_unit "Mt CO2/yr" "Gt CO2/yr" data in
  let data := convert_unit "kt N2O/yr" "Mt N2O/yr" data in
  convert_unit "Mt CO2-equiv/yr" "Gt CO2-equiv/yr" data.

(** [s.str.contains(pat)] for a pattern without regular-expression
    characters: [pat] occurs in [s]. *)
Fixpoint contains (pat s : string) : bool :=
  String.prefix pat s ||
  match s with
  | EmptyString => false
  | String _ s' => contains pat s'
  end.

Definition var_rename : list (string * string) :=
  [("Carbon Sequestration|CCS|Biomass", "BECCS");
   ("Emissions|CO2|Energy|Supply", "Energy Supply");
   ("Carbon Sequestration|BECCS+DAC", "Energy Supply (neg.)");
   ("Emissions|CO2|Energy|Supply Gross Positive", "Energy Supply (pos.)");
   ("Emissions|CO2|AFOLU", "LULUCF");
   ("Emissions|CO2|Energy|Demand|Transportation", "Transport");
   ("Emissions|CO2|Energy|Demand|Residential and Commercial", "Buildings");
   ("Emissions|CO2|Other", "Other")].

Section ImportData.

(** [create_variable] of utils/data.py and [variables.KYOTO] of
    utils/generalutils.py are used from outside this file and are parameters:
    [create_variable data var1 var2 new_name op default_var1 default_var2
    overwrite_unit] is the table the call returns. *)
Variable create_variable :
  Dataset -> string -> string -> string -> string ->
  option cell -> option cell -> option string -> Dataset.
Variable KYOTO : string.

(** The table after the five calls of [create_variable]. *)
Definition created_variables (data : Dataset) : Dataset :=
  let data := create_variable data
                "Emissions|CO2|Energy|Demand|Industry"
                "Emissions|CO2|Industrial Processes"
                "Industry" "+" (Some 0%float) (Some 0%float) None in
  let data := create_variable data
                "Emissions|CO2|Energy|Demand|AFOFI"
                "Emissions|CO2|Energy|Demand|Other Sector"
                "Other Energy Demand" "+" (Some 0%float) (Some 0%float) None in
  let data := create_variable data
                "Carbon Sequestration|CCS|Biomass"
                "Carbon Sequestration|Direct Air Capture"
                "Carbon Sequestration|BECCS+DAC" "+" (Some 0%float) (Some 0%float) None in
  let data := create_variable data
                "Emissions|CO2|Energy|Supply"
                "Carbon Sequestration|BECCS+DAC"
                "Emissions|CO2|Energy|Supply Gross Positive" "+"
                (Some 0%float) (Some 0%float) None in
  create_variable data KYOTO "Emissions|CO2" "Emissions|Non-CO2" "-"
    None None (Some "Mt CO2-equiv/yr").

Definition _create_extra_variables (data : Dataset) : Dataset :=
  let data := created_variables data in
  (* Make CCS variables minus *)
  let data := scale_where (fun r => contains "CCS" (d_Variable r)) (-1)%float data in
  (* Rename existing variables to something simpler *)
  fold_left (fun data kv => set_variable_where (fst kv) (snd kv) data) var_rename data.

End ImportData.

(** ** Notions used to state the properties *)

(** What the default does to one cell at the end of construction. *)
Definition default_cell (d : option cell) (c : cell) : cell :=
  match d with
  | Some d => fill_cell d c
  | None => c
  end.

(** The mode of a variable and the shape of its table agree: the constructor
    establishes this on both of its paths. *)
Definition var_wf (v : Var) : Prop :=
  match _year v, _values v with
  | YList l, VFrame f => columns f = l
  | YSingle y, VSeries s => str_name (sname s) = y
  | _, _ => False
  end.

(** A vector-mode variable has at least one year. *)
Definition has_year (v : Var) : Prop :=
  match _year v with
  | YList [] => False
  | _ => True
  end.

(** [n] is the canonical scenario of one of the tags [l] in the table [d]. *)
Definition canon_of (d : list (string * Marker)) (l : list string) (n : string) : Prop :=
  exists t m, In t l /\ assoc t d = Some m /\ scenario m = n.

(** The tags a filter argument stands for: "all" is every key of the table. *)
Definition requested (d : list (string * Marker)) (a : Arg) : list string :=
  _to_list (if is_all a then Many (keys d) else a) false.

(** The category tags a filter argument stands for. *)
Definition requested_categories (a : Arg) : list string :=
  _to_list (if is_all a then Many all_categories else a) false.

(** A table whose rows all have one cell per column. *)
Definition rectangular (f : Frame) : Prop :=
  Forall (fun r => List.length (snd r) = List.length (columns f)) (rows f).

(** The mode a table of values stands for: [str(values.name)] for a series,
    [list(values.columns)] for a frame. *)
Definition values_year (v : Values) : Year :=
  match v with
  | VSeries s => YSingle (str_name (sname s))
  | VFrame f => YList (columns f)
  end.

(** What the default does to a table at the end of construction. *)
Definition apply_default (d : option cell) (v : Values) : Values :=
  match d with
  | Some d => fillna d v
  | None => v
  end.

(** The value that stands in a cell without data: the default when there is
    one, a missing value otherwise. *)
Definition filler (d : option cell) : cell :=
  match d with
  | Some d => d
  | None => nan
  end.

(** The attributes every construction stores first. *)
Definition back_references : list Event :=
  [SetAttr "data"; SetAttr "scenarios"; SetAttr "vetted_scenarios"].

(** The index names of the table [select] returns. *)
Definition sel_index_names (s : Selected) : list string :=
  match s with
  | SelFrame names _ _ => names
  | SelSeries _ names _ => names
  end.

(** A category argument that passes the validation of [select]. *)
Definition valid_categories (category : option Arg) : Prop :=
  match category with
  | None => True
  | Some a => forall c, In c (requested_categories a) -> In c all_categories
  end.

(** An ip or ssp argument that passes the validation of [select]. *)
Definition valid_markers (d : list (string * Marker)) (arg : option Arg) : Prop :=
  match arg with
  | None => True
  | Some a => forall v, In v (requested d a) -> In v (keys d)
  end.

(** The metadata column a filter argument activates. *)
Definition active (column : string) (arg : option Arg) : list string :=
  match arg with
  | None => []
  | Some _ => [column]
  end.

(** Two rows in the order of their keys. *)
Definition key_ordered (a b : SelRow) : Prop :=
  key_leb (sel_key a) (sel_key b) = true.

(** The name a variable has once [var_rename] has been applied. *)
Definition renamed (v : string) : string :=
  match assoc v var_rename with
  | Some v' => v'
  | None => v
  end.

(** The unit a row has after [_convert_units], and whether its cells were
    scaled. *)
Definition converted_unit (u : string) : option string :=
  if String.eqb u "Mt CO2/yr" then Some "Gt CO2/yr"
  else if String.eqb u "kt N2O/yr" then Some "Mt N2O/yr"
  else if String.eqb u "Mt CO2-equiv/yr" then Some "Gt CO2-equiv/yr"
  else None.

(** One function applied to every cell of a table, and of a table [select]
    returned. *)
Definition map_cells (h : cell -> cell) (v : Values) : Values :=
  match v with
  | VFrame f =>
      VFrame (mkFrame (columns f) (map (fun r => (fst r, map h (snd r))) (rows f)))
  | VSeries s =>
      VSeries (mkSeries (sname s) (map (fun r => (fst r, h (snd r))) (items s)))
  end.

Definition sel_map_row (h : cell -> cell) (r : SelRow) : SelRow :=
  mkSelRow (sel_key r) (sel_name r) (map h (sel_cells r)).

Definition sel_map_cells (h : cell -> cell) (s : Selected) : Selected :=
  match s with
  | SelFrame names cols rws => SelFrame names cols (map (sel_map_row h) rws)
  | SelSeries nm names rws => SelSeries nm names (map (sel_map_row h) rws)
  end.

(** ** A small instance

    Two known years, two scenarios of which one is vetted, and enumerations
    with two entries each. *)

Module Example.

Definition YEARS : list string := ["2020"; "2030"].

Definition IP_SCENARIOS : list (string * Marker) :=
  [("CurPol", mkMarker "CurPol" "M1 S1"); ("GS", mkMarker "GS" "M1 S2")].

Definition SSP_SCENARIOS : list (string * Marker) :=
  [("SSP1-19", mkMarker "SSP1-19" "M1 S2"); ("SSP2-45", mkMarker "SSP2-45" "M1 S1")].

(** An interpolation that knows nothing: a missing value for every scenario
    of the variable. *)
Definition get_interp (d : Dataset) (variable : string) (y : cell) : list (string * cell) :=
  map (fun r => (d_Name r, nan)) (filter (fun r => String.eqb (d_Variable r) variable) d).

Definition py_float (s : string) : option cell :=
  if String.eqb s "2025" then Some 2025%float
  else if String.eqb s "2035" then Some 2035%float
  else None.

Definition dataset : Dataset :=
  [mkDataRow "M1 S1" "Energy Supply" "Gt CO2/yr" [1.0%float; 1.5%float];
   mkDataRow "M1 S2" "Energy Supply" "Gt CO2/yr" [2.0%float; 2.5%float];
   mkDataRow "M1 S1" "Other" "Gt CO2/yr" [nan; 7%float]].

Definition universe : Universe :=
  [("M1 S1", mkScenario (Some "C1") None (Some "SSP2-45") true);
   ("M1 S2", mkScenario (Some "C3") None (Some "SSP1-19") false)].

Definition vetted : Universe := filter (fun r => Vetted (snd r)) universe.

Definition new_var := __init__ YEARS get_interp py_float dataset universe vetted.

(** [Var(..., "Energy Supply", ["2020", "2030"])]. *)
Definition energy : Var :=
  mkVar dataset universe vetted (Some "Energy Supply") (YList ["2020"; "2030"])
    (VFrame (mkFrame ["2020"; "2030"]
       [("M1 S1", [1.0%float; 1.5%float]); ("M1 S2", [2.0%float; 2.5%float])]))
    None.

(** [Var(..., "Energy Supply", ["2020", "2030"], default=0.0)]. *)
Definition energy0 : Var :=
  mkVar dataset universe vetted (Some "Energy Supply") (YList ["2020"; "2030"])
    (VFrame (mkFrame ["2020"; "2030"]
       [("M1 S1", [1.0%float; 1.5%float]); ("M1 S2", [2.0%float; 2.5%float])]))
    (Some 0%float).

(** [Var(..., "Other", "2020")]: one scenario, whose value is missing. *)
Definition other2020 : Var :=
  mkVar dataset universe vetted (Some "Other") (YSingle "2020")
    (VSeries (mkSeries (Some "2020") [("M1 S1", nan)])) None.

(** [Var(..., "Other", "2030", default=0.0)]. *)
Definition other2030 : Var :=
  mkVar dataset universe vetted (Some "Other") (YSingle "2030")
    (VSeries (mkSeries (Some "2030") [("M1 S1", 7%float)])) (Some 0%float).

End Example.

(** * Properties *)

(** ** Labels and lookups *)

Lemma mem_In (x : string) (l : list string) : mem x l = true <-> In x l.
Proof.
  unfold mem. rewrite existsb_exists. split.
  - intros [y [Hy E]]. apply String.eqb_eq in E. now subst.
  - intros H. exists x. split; [assumption | apply String.eqb_refl].
Qed.

Lemma mem_false (x : string) (l : list string) : mem x l = false <-> ~ In x l.
Proof.
  rewrite <- mem_In. destruct (mem x l); split; intros; congruence.
Qed.

Lemma list_eqb_refl (a : list string) : list_eqb a a = true.
Proof.
  induction a as [|x a IH]; simpl; [reflexivity|].
  now rewrite String.eqb_refl, IH.
Qed.

Lemma list_eqb_eq (a b : list string) : list_eqb a b = true -> a = b.
Proof.
  revert b. induction a as [|x a IH]; intros [|y b]; simpl; try congruence.
  intros H. apply andb_true_iff in H as [E H]. apply String.eqb_eq in E.
  f_equal; auto.
Qed.

Lemma In_dedup (x : string) (l : list string) : In x (dedup l) <-> In x l.
Proof.
  induction l as [|y l IH]; simpl; [tauto|].
  rewrite filter_In, IH. destruct (String.eqb_spec x y) as [->|N]; simpl.
  - tauto.
  - split; [tauto|]. intros [E|H]; [now left | right; split; [assumption|reflexivity]].
Qed.

Lemma NoDup_dedup (l : list string) : NoDup (dedup l).
Proof.
  induction l as [|y l IH]; simpl; constructor.
  - rewrite filter_In, String.eqb_refl. simpl. intros [_ H]. discriminate.
  - now apply NoDup_filter.
Qed.

Lemma dedup_NoDup (l : list string) : NoDup l -> dedup l = l.
Proof.
  induction 1 as [|x l Hx _ IH]; simpl; [reflexivity|].
  rewrite IH. f_equal. apply forallb_filter_id. apply forallb_forall.
  intros y Hy. destruct (String.eqb_spec y x); [subst; contradiction | reflexivity].
Qed.

Lemma In_insert_label (x y : string) (l : list string) :
  In x (insert_label y l) <-> x = y \/ In x l.
Proof.
  induction l as [|z l IH]; simpl; [intuition congruence|].
  destruct (String.leb y z); simpl; [intuition congruence|].
  rewrite IH. intuition congruence.
Qed.

Lemma In_sort_labels (x : string) (l : list string) : In x (sort_labels l) <-> In x l.
Proof.
  induction l as [|y l IH]; simpl; [tauto|].
  rewrite In_insert_label, IH. intuition congruence.
Qed.

Lemma In_label_union (x : string) (a b : list string) :
  In x (label_union a b) <-> In x a \/ In x b.
Proof.
  unfold label_union. destruct (list_eqb a b) eqn:E.
  - apply list_eqb_eq in E. subst. tauto.
  - rewrite In_sort_labels, In_dedup. apply in_app_iff.
Qed.

Lemma label_union_same (a : list string) : label_union a a = a.
Proof. unfold label_union. now rewrite list_eqb_refl. Qed.

Lemma set_eqb_spec (a b : list string) :
  set_eqb a b = true <-> (forall x, In x a <-> In x b).
Proof.
  unfold set_eqb. rewrite andb_true_iff, !forallb_forall. split.
  - intros [H1 H2] x. split; intros H.
    + apply mem_In. now apply H1.
    + apply mem_In. now apply H2.
  - intros H. split; intros x Hx; apply mem_In; now apply H.
Qed.

Lemma assoc_In {A} (k : string) (l : list (string * A)) (v : A) :
  assoc k l = Some v -> In (k, v) l.
Proof.
  induction l as [|[k' v'] l IH]; simpl; [discriminate|].
  destruct (String.eqb_spec k k') as [->|N].
  - intros [= ->]. now left.
  - intros H. right. now apply IH.
Qed.

Lemma assoc_Some_iff {A} (k : string) (l : list (string * A)) :
  (exists v, assoc k l = Some v) <-> In k (map fst l).
Proof.
  induction l as [|[k' v'] l IH]; simpl.
  - split; [intros [v H]; discriminate | tauto].
  - destruct (String.eqb_spec k k') as [->|N].
    + split; [now left | intros _; now exists v'].
    + rewrite IH. intuition congruence.
Qed.

Lemma assoc_None_iff {A} (k : string) (l : list (string * A)) :
  assoc k l = None <-> ~ In k (map fst l).
Proof.
  rewrite <- assoc_Some_iff. destruct (assoc k l) as [v|]; split.
  - discriminate.
  - intros H. exfalso. apply H. now exists v.
  - intros _ [v H]. discriminate.
  - reflexivity.
Qed.

Lemma assoc_tabulated {A} (F : string -> A) (idx : list string) (n : string) :
  assoc n (map (fun k => (k, F k)) idx) = if mem n idx then Some (F n) else None.
Proof.
  induction idx as [|k idx IH]; simpl; [reflexivity|].
  destruct (String.eqb_spec n k) as [->|N]; simpl; [reflexivity | exact IH].
Qed.

Lemma assoc_map_snd {A B} (g : string -> A -> B) (l : list (string * A)) (n : string) :
  assoc n (map (fun r => (fst r, g (fst r) (snd r))) l) = option_map (g n) (assoc n l).
Proof.
  induction l as [|[k v] l IH]; simpl; [reflexivity|].
  destruct (String.eqb_spec n k) as [->|N]; simpl; [reflexivity | exact IH].
Qed.

Lemma row_cell_map (F : string -> cell) (cols : list string) (y : string) :
  row_cell cols (map F cols) y = if mem y cols then F y else nan.
Proof.
  unfold row_cell. induction cols as [|c cols IH]; simpl; [reflexivity|].
  destruct (String.eqb_spec y c) as [->|N]; simpl; [reflexivity | exact IH].
Qed.

Lemma row_cell_absent (cols : list string) (cells : list cell) (y : string) :
  ~ In y cols -> row_cell cols cells y = nan.
Proof.
  unfold row_cell. intros H.
  destruct (assoc y (combine cols cells)) as [c|] eqn:E; [|reflexivity].
  exfalso. apply H. apply assoc_In in E. now apply in_combine_l in E.
Qed.

Lemma frame_cell_tabulate (idx cols : list string) (F : string -> string -> cell)
    (n y : string) :
  In n idx -> In y cols -> frame_cell (tabulate idx cols F) n y = F n y.
Proof.
  intros Hn Hy. unfold frame_cell, tabulate. simpl.
  rewrite (assoc_tabulated (fun k => map (fun y => F k y) cols)).
  apply mem_In in Hn. rewrite Hn. rewrite row_cell_map.
  apply mem_In in Hy. now rewrite Hy.
Qed.

Lemma index_tabulate (idx cols : list string) (F : string -> string -> cell) :
  index (tabulate idx cols F) = idx.
Proof.
  unfold index, tabulate. simpl. rewrite map_map. simpl. apply map_id.
Qed.

Lemma series_cell_stabulate (nm : option string) (idx : list string)
    (F : string -> cell) (n : string) :
  In n idx -> series_cell (stabulate nm idx F) n = F n.
Proof.
  intros Hn. unfold series_cell, stabulate. simpl.
  rewrite assoc_tabulated. apply mem_In in Hn. now rewrite Hn.
Qed.

(** ** Missing values *)

Lemma fill_cell_idempotent (d c : cell) : fill_cell d (fill_cell d c) = fill_cell d c.
Proof.
  unfold fill_cell. destruct (is_nan c) eqn:Ec.
  - now destruct (is_nan d).
  - now rewrite Ec.
Qed.

Lemma fill_cell_not_nan (d c : cell) : is_nan d = false -> is_nan (fill_cell d c) = false.
Proof.
  intros Hd. unfold fill_cell. now destruct (is_nan c) eqn:Ec.
Qed.

Lemma fill_cell_nan (d : cell) : fill_cell d nan = d.
Proof. reflexivity. Qed.

Lemma eval_op_nan_l (op : binop) (x : cell) : eval_op op nan x = nan.
Proof.
  rewrite <- (SF2Prim_Prim2SF (eval_op op nan x)).
  destruct op; simpl; rewrite ?add_spec, ?sub_spec, ?mul_spec, ?div_spec; reflexivity.
Qed.

Lemma eval_op_nan_r (op : binop) (x : cell) : eval_op op x nan = nan.
Proof.
  rewrite <- (SF2Prim_Prim2SF (eval_op op x nan)).
  destruct op; simpl; rewrite ?add_spec, ?sub_spec, ?mul_spec, ?div_spec;
    destruct (Prim2SF x) as [| | |]; reflexivity.
Qed.

Lemma fillna_idempotent (d : cell) (v : Values) : fillna d (fillna d v) = fillna d v.
Proof.
  destruct v as [f|s]; simpl; f_equal; f_equal; rewrite map_map; apply map_ext;
    intros [n c]; simpl; f_equal.
  - rewrite map_map. apply map_ext. intros x. apply fill_cell_idempotent.
  - apply fill_cell_idempotent.
Qed.

Lemma fillna_no_missing (d : cell) (v : Values) :
  is_nan d = false -> has_missing (fillna d v) = false.
Proof.
  intros Hd. destruct v as [f|s]; simpl.
  - induction (rows f) as [|[n cs] l IH]; simpl; [reflexivity|].
    rewrite IH, orb_false_r. induction cs as [|c cs IHc]; simpl; [reflexivity|].
    now rewrite IHc, fill_cell_not_nan.
  - induction (items s) as [|[n c] l IH]; simpl; [reflexivity|].
    now rewrite IH, fill_cell_not_nan.
Qed.

(** ** The fixtures are what the constructor builds *)

Lemma energy_constructed :
  snd (Example.new_var (Some "Energy Supply") (Some (Many ["2020"; "2030"])) None None)
  = inr Example.energy.
Proof. reflexivity. Qed.

Lemma energy0_constructed :
  snd (Example.new_var (Some "Energy Supply") (Some (Many ["2020"; "2030"])) None
         (Some 0%float))
  = inr Example.energy0.
Proof. reflexivity. Qed.

Lemma other2020_constructed :
  snd (Example.new_var (Some "Other") (Some (One "2020")) None None)
  = inr Example.other2020.
Proof. reflexivity. Qed.

Lemma other2030_constructed :
  snd (Example.new_var (Some "Other") (Some (One "2030")) None (Some 0%float))
  = inr Example.other2030.
Proof. reflexivity. Qed.

(** ** The error monad *)

Lemma bind_inr {A B} (m : Result A) (k : A -> Result B) (b : B) :
  bind m k = inr b -> exists a, m = inr a /\ k a = inr b.
Proof.
  destruct m as [e|a]; simpl; [discriminate|]. intros H. now exists a.
Qed.

Ltac bind_inv H :=
  let a := fresh "a" in
  let Ha := fresh "Ha" in
  apply bind_inr in H; destruct H as [a [Ha H]].

Tactic Notation "unbind" hyp(H) "as" ident(a) ident(Ha) :=
  apply bind_inr in H; destruct H as [a [Ha H]].

Lemma for_each_valid (allowed : list string) (mk : string -> Error) (l : list string) :
  for_each (fun c => if mem c allowed then ok tt else raise (mk c)) l = inr tt
  <-> (forall c, In c l -> In c allowed).
Proof.
  induction l as [|x l IH]; simpl.
  - split; [intros _ c [] | reflexivity].
  - destruct (mem x allowed) eqn:E; simpl.
    + rewrite IH. apply mem_In in E. split.
      * intros H c [<-|Hc]; auto.
      * intros H c Hc. apply H. now right.
    + split; [discriminate|]. intros H. apply mem_false in E.
      exfalso. apply E, H. now left.
Qed.

Lemma for_each_unit {A} (body : A -> Result unit) (l : list A) (u : unit) :
  for_each body l = inr u -> for_each body l = inr tt.
Proof. now destruct u. Qed.

Lemma map_result_canonical_inv (d : list (string * Marker)) (l w : list string) :
  map_result (canonical d) l = inr w -> forall n, In n w <-> canon_of d l n.
Proof.
  revert w. induction l as [|t l IH]; simpl; intros w H n.
  - injection H as <-. split; [intros [] | intros [t [m [[] _]]]].
  - bind_inv H. bind_inv H. injection H as <-.
    unfold canonical in Ha. destruct (assoc t d) as [m|] eqn:E; [|discriminate].
    injection Ha as <-. simpl. rewrite (IH _ Ha0 n). split.
    + intros [<-|[t' [m' [Ht' Hm']]]].
      * exists t, m. repeat split; auto. now left.
      * exists t', m'. split; [now right | assumption].
    + intros [t' [m' [[<-|Ht'] [Hm' Hn]]]].
      * left. congruence.
      * right. exists t', m'. auto.
Qed.

Lemma map_result_canonical_ok (d : list (string * Marker)) (l : list string) :
  (forall t, In t l -> In t (keys d)) -> exists w, map_result (canonical d) l = inr w.
Proof.
  induction l as [|t l IH]; simpl; intros H.
  - now exists [].
  - destruct IH as [w Hw]; [intros; apply H; now right|].
    assert (Ht : In t (keys d)) by (apply H; now left).
    apply assoc_Some_iff in Ht as [m Hm]. unfold canonical at 1. rewrite Hm. simpl.
    rewrite Hw. simpl. now eexists.
Qed.

(** ** The rows [select] returns *)

Lemma In_insert_row (x r : SelRow) (l : list SelRow) :
  In x (insert_row r l) <-> x = r \/ In x l.
Proof.
  induction l as [|r' l IH]; simpl; [intuition congruence|].
  destruct (key_leb (sel_key r) (sel_key r')); simpl; [intuition congruence|].
  rewrite IH. intuition congruence.
Qed.

Lemma In_sort_values (x : SelRow) (l : list SelRow) : In x (sort_values l) <-> In x l.
Proof.
  induction l as [|r l IH]; simpl; [tauto|].
  rewrite In_insert_row, IH. intuition congruence.
Qed.

Lemma sort_values_permutation (l : list SelRow) : Permutation (sort_values l) l.
Proof.
  induction l as [|r l IH]; simpl; [constructor|].
  transitivity (r :: sort_values l); [|now constructor].
  clear IH. induction (sort_values l) as [|r' t IHt]; simpl; [reflexivity|].
  destruct (key_leb (sel_key r) (sel_key r')); [reflexivity|].
  transitivity (r' :: r :: t); [now constructor | constructor].
Qed.

(** A row of the merge is a row of the left table, with the metadata of a
    row of the selection under the same label, or with missing metadata when
    the selection has none. *)
Lemma In_merge_left (f : Frame) (selection : Universe) (extra : list string) (r : SelRow) :
  In r (merge_left f selection extra) <->
  In (sel_name r, sel_cells r) (rows f) /\
  ((~ In (sel_name r) (keys selection) /\ sel_key r = map (fun _ => None) extra) \/
   (exists m, In (sel_name r, m) selection /\ sel_key r = map (meta_column m) extra)).
Proof.
  unfold merge_left. rewrite in_flat_map. split.
  - intros [[n cs] [Hrow Hr]]. cbv beta in Hr. cbn [fst snd] in Hr.
    destruct (filter (fun m => String.eqb (fst m) n) selection) as [|m0 ms] eqn:E.
    + destruct Hr as [<-|[]]. simpl. split; [assumption|]. left. split; [|reflexivity].
      intros Hin. apply in_map_iff in Hin as [[k m] [Hk Hm]]. simpl in Hk. subst k.
      assert (Hf : In (n, m) (filter (fun m => String.eqb (fst m) n) selection)).
      { apply filter_In. split; [assumption | apply String.eqb_refl]. }
      rewrite E in Hf. destruct Hf.
    + rewrite <- E in Hr. apply in_map_iff in Hr as [[k m] [<- Hm]].
      apply filter_In in Hm as [Hm Hk]. simpl in Hk. apply String.eqb_eq in Hk. subst k.
      simpl. split; [assumption|]. right. now exists m.
  - intros [Hrow Hwhich]. exists (sel_name r, sel_cells r). split; [assumption|].
    cbv beta. cbn [fst snd]. destruct Hwhich as [[Hno Hkey]|[m [Hm Hkey]]].
    + destruct (filter (fun m => String.eqb (fst m) (sel_name r)) selection) as [|m0 ms] eqn:E.
      * left. destruct r. simpl in *. now subst.
      * exfalso. apply Hno.
        assert (Hf : In m0 (filter (fun m => String.eqb (fst m) (sel_name r)) selection))
          by (rewrite E; now left).
        apply filter_In in Hf as [Hf Hk]. apply String.eqb_eq in Hk.
        apply in_map_iff. now exists m0.
    + assert (Hf : In (sel_name r, m)
                      (filter (fun m => String.eqb (fst m) (sel_name r)) selection)).
      { apply filter_In. split; [assumption | apply String.eqb_refl]. }
      destruct (filter (fun m => String.eqb (fst m) (sel_name r)) selection) as [|m0 ms] eqn:E;
        [destruct Hf|].
      rewrite <- E. apply in_map_iff. exists (sel_name r, m). split; [|now rewrite E].
      destruct r. simpl in *. now subst.
Qed.

Lemma merge_left_names (f : Frame) (selection : Universe) (extra : list string) (n : string) :
  In n (map sel_name (merge_left f selection extra)) <-> In n (index f).
Proof.
  unfold index. rewrite !in_map_iff. split.
  - intros [r [<- Hr]]. apply In_merge_left in Hr as [Hrow _].
    now exists (sel_name r, sel_cells r).
  - intros [[k cs] [<- Hrow]]. simpl.
    destruct (in_dec string_dec k (keys selection)) as [Hin|Hout].
    + apply in_map_iff in Hin as [[k' m] [Hk Hm]]. simpl in Hk. subst k'.
      exists (mkSelRow (map (meta_column m) extra) k cs). split; [reflexivity|].
      apply In_merge_left. simpl. split; [assumption|]. right. now exists m.
    + exists (mkSelRow (map (fun _ => None) extra) k cs). split; [reflexivity|].
      apply In_merge_left. simpl. split; [assumption|]. now left.
Qed.

Lemma index_subset_frame (v : Values) (selection : Universe) (n : string) :
  In n (index (subset_frame v selection)) <->
  In n (values_index v) /\ In n (keys selection).
Proof.
  unfold index. destruct v as [f|s]; simpl.
  - unfold index. rewrite !in_map_iff. split.
    + intros [r [<- Hr]]. apply filter_In in Hr as [Hr Hm]. apply mem_In in Hm.
      split; [now exists r | assumption].
    + intros [[r [<- Hr]] Hm]. exists r. split; [reflexivity|].
      apply filter_In. split; [assumption | now apply mem_In].
  - unfold sindex. rewrite map_map. simpl. rewrite !in_map_iff. split.
    + intros [r [<- Hr]]. apply filter_In in Hr as [Hr Hm]. apply mem_In in Hm.
      split; [now exists r | assumption].
    + intros [[r [<- Hr]] Hm]. exists r. split; [reflexivity|].
      apply filter_In. split; [assumption | now apply mem_In].
Qed.

Section Selection.

Variable IP_SCENARIOS : list (string * Marker).
Variable SSP_SCENARIOS : list (string * Marker).


(** [select] returns the scenarios of the values table that the filtered
    selection holds. *)
Lemma select_names (self : Var) (category ip ssp : option Arg) (curpol ndc : option unit)
    (vetted : bool) (r : Selected) :
  select IP_SCENARIOS SSP_SCENARIOS self category ip ssp curpol ndc vetted = inr r ->
  exists st, apply_filters IP_SCENARIOS SSP_SCENARIOS self category ip ssp vetted = inr st /\
             curpol = None /\ ndc = None /\
             forall n, In n (sel_names r) <->
                       In n (values_index (_values self)) /\ In n (keys (fst st)).
Proof.
  unfold select. intros H. bind_inv H. exists a. split; [assumption|].
  destruct curpol; [discriminate|]. destruct ndc; [discriminate|]. simpl in H.
  split; [reflexivity|]. split; [reflexivity|]. intros n.
  assert (Hnames : sel_names r =
                   map sel_name (sort_values (merge_left (subset_frame (_values self) (fst a))
                                                         (fst a) (snd a)))).
  { destruct (_values self); injection H as <-; unfold sel_names; simpl;
      [reflexivity | now rewrite map_map]. }
  rewrite Hnames, <- index_subset_frame, <- (merge_left_names _ (fst a) (snd a)).
  rewrite !in_map_iff. split; intros [x [Hx Hin]]; exists x; split; auto;
    now apply In_sort_values.
Qed.

Lemma select_ok (self : Var) (category ip ssp : option Arg) (vetted : bool) (st : Filter) :
  apply_filters IP_SCENARIOS SSP_SCENARIOS self category ip ssp vetted = inr st ->
  exists r, select IP_SCENARIOS SSP_SCENARIOS self category ip ssp None None vetted = inr r.
Proof.
  intros H. unfold select. rewrite H. simpl.
  destruct (_values self); eexists; reflexivity.
Qed.

(** *** The filters *)

Lemma filter_category_inv (category : option Arg) (st st' : Filter) :
  filter_category category st = inr st' ->
  match category with
  | None => st' = st
  | Some c =>
      (forall x, In x (requested_categories c) -> In x all_categories) /\
      fst st' = filter (fun r => isin (Category (snd r)) (requested_categories c)) (fst st) /\
      snd st' = snd st ++ ["Category"]
  end.
Proof.
  unfold filter_category. destruct category as [c|]; [|now intros [= <-]].
  intros H. unbind H as u Hu. injection H as <-. destruct u.
  split; [exact (proj1 (for_each_valid all_categories InvalidFilterValue _) Hu)|].
  split; reflexivity.
Qed.

Lemma filter_ip_inv (ip : option Arg) (st st' : Filter) :
  filter_ip IP_SCENARIOS ip st = inr st' ->
  match ip with
  | None => st' = st
  | Some a =>
      exists wanted,
        (forall n, In n wanted <-> canon_of IP_SCENARIOS (requested IP_SCENARIOS a) n) /\
        fst st' = filter (fun r => mem (fst r) wanted) (fst st) /\
        snd st' = snd st ++ ["IP"]
  end.
Proof.
  unfold filter_ip. destruct ip as [a|]; [|now intros [= <-]].
  intros H. unbind H as u Hu. unbind H as w Hw. injection H as <-.
  exists w. split; [|split; reflexivity].
  now apply map_result_canonical_inv.
Qed.

(** After the loop that adds scenarios back, the selection holds what it
    held before and the canonical scenario of every tag. *)
Lemma add_unvetted_keys (full : Universe) (ssp : list string) (selection selection' : Universe) :
  add_unvetted SSP_SCENARIOS full ssp selection = inr selection' ->
  forall n, In n (keys selection') <->
            In n (keys selection) \/ canon_of SSP_SCENARIOS ssp n.
Proof.
  revert selection. induction ssp as [|v t IH]; simpl; intros selection H n.
  - injection H as <-. split; [now left|]. intros [H|[v [m [[] _]]]]. assumption.
  - unbind H as s Hs. unfold canonical in Hs.
    destruct (assoc v SSP_SCENARIOS) as [m|] eqn:E; [|discriminate]. injection Hs as <-.
    assert (Hcanon : forall k, canon_of SSP_SCENARIOS (v :: t) k <->
                               k = scenario m \/ canon_of SSP_SCENARIOS t k).
    { intros k. split.
      - intros [v' [m' [[<-|Hv'] [Hm' Hk]]]].
        + left. congruence.
        + right. now exists v', m'.
      - intros [->|[v' [m' [Hv' Hm']]]].
        + exists v, m. repeat split; auto. now left.
        + exists v', m'. split; [now right | assumption]. }
    rewrite Hcanon. destruct (mem (scenario m) (keys selection)) eqn:Em.
    + rewrite (IH _ H n). apply mem_In in Em. intuition (subst; auto).
    + unbind H as extra Hx. rewrite (IH _ H n). unfold keys. rewrite map_app, in_app_iff.
      unfold loc in Hx.
      assert (Hk : forall k, In k (map fst extra) <-> k = scenario m).
      { destruct (filter (fun r => String.eqb (fst r) (scenario m)) full) as [|r0 rs] eqn:Ef;
          [discriminate|]. injection Hx as <-. rewrite <- Ef. intros k.
        rewrite in_map_iff. split.
        - intros [r [<- Hr]]. apply filter_In in Hr as [_ Hr]. now apply String.eqb_eq in Hr.
        - intros ->. exists r0. assert (Hr0 : In r0 (r0 :: rs)) by now left.
          rewrite <- Ef in Hr0. split; [|assumption].
          apply filter_In in Hr0 as [_ Hr0]. now apply String.eqb_eq in Hr0. }
      rewrite Hk. fold (keys selection). tauto.
Qed.

(** The rows added back are rows of the full universe. *)
Lemma add_unvetted_rows (full : Universe) (ssp : list string) (selection selection' : Universe) :
  add_unvetted SSP_SCENARIOS full ssp selection = inr selection' ->
  forall r, In r selection' -> In r selection \/ In r full.
Proof.
  revert selection. induction ssp as [|v t IH]; simpl; intros selection H r Hr.
  - injection H as <-. now left.
  - unbind H as s Hs. destruct (mem s (keys selection)).
    + now apply (IH _ H).
    + unbind H as extra Hx. destruct (IH _ H r Hr) as [Hin|Hin]; [|now right].
      apply in_app_iff in Hin as [Hin|Hin]; [now left|]. right.
      unfold loc in Hx.
      destruct (filter (fun r => String.eqb (fst r) s) full) as [|r0 rs] eqn:Ef;
        [discriminate|]. injection Hx as <-. rewrite <- Ef in Hin.
      now apply filter_In in Hin as [Hin _].
Qed.

(** The loop succeeds when every tag is known and its canonical scenario is a
    row of the full universe. *)
Lemma add_unvetted_ok (full : Universe) (ssp : list string) (selection : Universe) :
  (forall n, canon_of SSP_SCENARIOS ssp n -> In n (keys full)) ->
  (forall t, In t ssp -> In t (keys SSP_SCENARIOS)) ->
  exists selection', add_unvetted SSP_SCENARIOS full ssp selection = inr selection'.
Proof.
  revert selection. induction ssp as [|v t IH]; simpl; intros selection Hfull Hkeys.
  - now eexists.
  - assert (Hv : In v (keys SSP_SCENARIOS)) by (apply Hkeys; now left).
    apply assoc_Some_iff in Hv as [m Hm]. unfold canonical. rewrite Hm. simpl.
    assert (Hrec : forall s, exists selection',
               add_unvetted SSP_SCENARIOS full t s = inr selection').
    { intros s. apply IH.
      - intros n [v' [m' [Hv' Hm']]]. apply Hfull. exists v', m'. split; [now right|assumption].
      - intros v' Hv'. apply Hkeys. now right. }
    destruct (mem (scenario m) (keys selection)); [apply Hrec|].
    assert (Hin : In (scenario m) (keys full)).
    { apply Hfull. exists v, m. repeat split; auto. now left. }
    unfold loc.
    destruct (filter (fun r => String.eqb (fst r) (scenario m)) full) as [|r0 rs] eqn:Ef.
    + exfalso. apply in_map_iff in Hin as [r [Hr Hin]].
      assert (Hf : In r (filter (fun r => String.eqb (fst r) (scenario m)) full)).
      { apply filter_In. split; [assumption|]. rewrite Hr. apply String.eqb_refl. }
      rewrite Ef in Hf. destruct Hf.
    + simpl. apply Hrec.
Qed.

(** Conversely, a loop that succeeds from a selection inside the full universe
    found every canonical scenario in the full universe. *)
Lemma add_unvetted_found (full : Universe) (ssp : list string) (selection selection' : Universe) :
  add_unvetted SSP_SCENARIOS full ssp selection = inr selection' ->
  incl selection full ->
  (forall n, canon_of SSP_SCENARIOS ssp n -> In n (keys full)) /\
  (forall t, In t ssp -> In t (keys SSP_SCENARIOS)).
Proof.
  intros H Hincl.
  assert (Hsel' : incl selection' full).
  { intros r Hr. destruct (add_unvetted_rows _ _ _ _ H r Hr); auto. }
  split.
  - intros n Hn. assert (Hk : In n (keys selection')).
    { apply (add_unvetted_keys _ _ _ _ H). now right. }
    apply in_map_iff in Hk as [r [<- Hr]]. apply in_map. now apply Hsel'.
  - clear Hincl Hsel'. revert selection H. induction ssp as [|v t IH]; simpl; intros selection H.
    + intros t [].
    + unbind H as s Hs. unfold canonical in Hs.
      destruct (assoc v SSP_SCENARIOS) as [m|] eqn:E; [|discriminate].
      assert (Hv : In v (keys SSP_SCENARIOS)) by (apply assoc_Some_iff; now exists m).
      destruct (mem s (keys selection)).
      * intros t' [<-|Ht']; [assumption | now apply (IH _ H)].
      * unbind H as extra Hx. intros t' [<-|Ht']; [assumption | now apply (IH _ H)].
Qed.

Lemma filter_ssp_inv (full : Universe) (ssp : option Arg) (st st' : Filter) :
  filter_ssp SSP_SCENARIOS full ssp st = inr st' ->
  match ssp with
  | None => st' = st
  | Some a =>
      (forall n, In n (keys (fst st')) <-> canon_of SSP_SCENARIOS (requested SSP_SCENARIOS a) n) /\
      (forall r, In r (fst st') -> In r (fst st) \/ In r full) /\
      snd st' = snd st ++ ["SSP"]
  end.
Proof.
  unfold filter_ssp. destruct ssp as [a|]; [|now intros [= <-]].
  intros H. unbind H as u Hu. unbind H as w Hwanted. unbind H as sel Hsel.
  injection H as <-. simpl.
  pose proof (map_result_canonical_inv _ _ _ Hwanted) as Hw.
  split; [|split; [|reflexivity]].
  - intros n. rewrite (add_unvetted_keys _ _ _ _ Hsel n). unfold requested. split.
    + intros [Hn|Hn]; [|assumption]. apply in_map_iff in Hn as [r [<- Hr]].
      apply filter_In in Hr as [_ Hr]. apply mem_In in Hr. now apply Hw.
    + now right.
  - intros r Hr. destruct (add_unvetted_rows _ _ _ _ Hsel r Hr) as [Hin|Hin]; [|now right].
    left. now apply filter_In in Hin as [Hin _].
Qed.

(** Whether a filter raises depends on its argument alone, and a larger
    selection stays larger. *)
Lemma filter_category_mono (category : option Arg) (st1 st1' st2 : Filter) :
  filter_category category st1 = inr st1' ->
  snd st1 = snd st2 ->
  exists st2', filter_category category st2 = inr st2' /\
               snd st1' = snd st2' /\
               (incl (fst st1) (fst st2) -> incl (fst st1') (fst st2')).
Proof.
  unfold filter_category. destruct category as [c|].
  - intros H Hx. unbind H as u Hu. injection H as <-. rewrite Hu. simpl.
    eexists. split; [reflexivity|]. simpl. split; [now rewrite Hx|].
    intros Hincl r Hr. apply filter_In in Hr as [Hr Hp]. apply filter_In. auto.
  - intros [= <-] Hx. exists st2. auto.
Qed.

Lemma filter_ip_mono (ip : option Arg) (st1 st1' st2 : Filter) :
  filter_ip IP_SCENARIOS ip st1 = inr st1' ->
  snd st1 = snd st2 ->
  exists st2', filter_ip IP_SCENARIOS ip st2 = inr st2' /\
               snd st1' = snd st2' /\
               (incl (fst st1) (fst st2) -> incl (fst st1') (fst st2')).
Proof.
  unfold filter_ip. destruct ip as [a|].
  - intros H Hx. unbind H as u Hu. unbind H as w Hw. injection H as <-.
    rewrite Hu. simpl. rewrite Hw. simpl.
    eexists. split; [reflexivity|]. simpl. split; [now rewrite Hx|].
    intros Hincl r Hr. apply filter_In in Hr as [Hr Hp]. apply filter_In. auto.
  - intros [= <-] Hx. exists st2. auto.
Qed.

Lemma filter_category_incl (category : option Arg) (st st' : Filter) :
  filter_category category st = inr st' -> incl (fst st') (fst st).
Proof.
  intros H. apply filter_category_inv in H. destruct category.
  - destruct H as [_ [-> _]]. intros r Hr. now apply filter_In in Hr as [Hr _].
  - subst. apply incl_refl.
Qed.

Lemma filter_ip_incl (ip : option Arg) (st st' : Filter) :
  filter_ip IP_SCENARIOS ip st = inr st' -> incl (fst st') (fst st).
Proof.
  intros H. apply filter_ip_inv in H. destruct ip.
  - destruct H as [w [_ [-> _]]]. intros r Hr. now apply filter_In in Hr as [Hr _].
  - subst. apply incl_refl.
Qed.

Lemma filter_ssp_ok (full : Universe) (a : Arg) (st : Filter) :
  (forall t, In t (requested SSP_SCENARIOS a) -> In t (keys SSP_SCENARIOS)) ->
  (forall n, canon_of SSP_SCENARIOS (requested SSP_SCENARIOS a) n -> In n (keys full)) ->
  exists st', filter_ssp SSP_SCENARIOS full (Some a) st = inr st'.
Proof.
  intros Hkeys Hfull. unfold filter_ssp. fold (requested SSP_SCENARIOS a).
  rewrite (proj2 (for_each_valid (keys SSP_SCENARIOS) InvalidFilterValue _) Hkeys). simpl.
  destruct (map_result_canonical_ok SSP_SCENARIOS _ Hkeys) as [w Hw]. rewrite Hw. simpl.
  destruct (add_unvetted_ok full (requested SSP_SCENARIOS a)
              (filter (fun r => mem (fst r) w) (fst st)) Hfull Hkeys) as [sel Hsel].
  rewrite Hsel. simpl. now eexists.
Qed.

Lemma filter_ssp_found (full : Universe) (a : Arg) (st st' : Filter) :
  filter_ssp SSP_SCENARIOS full (Some a) st = inr st' ->
  incl (fst st) full ->
  (forall t, In t (requested SSP_SCENARIOS a) -> In t (keys SSP_SCENARIOS)) /\
  (forall n, canon_of SSP_SCENARIOS (requested SSP_SCENARIOS a) n -> In n (keys full)).
Proof.
  unfold filter_ssp. fold (requested SSP_SCENARIOS a). intros H Hincl.
  unbind H as u Hu. unbind H as w Hw. unbind H as sel Hsel.
  destruct (add_unvetted_found full _ _ _ Hsel) as [Hfull Hkeys]; [|now split].
  intros r Hr. apply filter_In in Hr as [Hr _]. now apply Hincl.
Qed.

Lemma incl_keys (a b : Universe) : incl a b -> incl (keys a) (keys b).
Proof.
  intros H n Hn. apply in_map_iff in Hn as [r [<- Hr]]. apply in_map. now apply H.
Qed.

(** The filters from the vetted sub-universe and from the full universe, for
    the same arguments: they raise alike, and the first selection lies inside
    the second. *)
Lemma apply_filters_vetted (self : Var) (category ip ssp : option Arg) (b : bool)
    (st : Filter) :
  incl (vetted_scenarios self) (scenarios self) ->
  apply_filters IP_SCENARIOS SSP_SCENARIOS self category ip ssp b = inr st ->
  exists st_v st_f,
    apply_filters IP_SCENARIOS SSP_SCENARIOS self category ip ssp true = inr st_v /\
    apply_filters IP_SCENARIOS SSP_SCENARIOS self category ip ssp false = inr st_f /\
    incl (keys (fst st_v)) (keys (fst st_f)).
Proof.
  intros Hsub H. unfold apply_filters in *.
  unbind H as c Hc. unbind H as i Hi.
  set (from_v := (vetted_scenarios self, @nil string)).
  set (from_f := (scenarios self, @nil string)).
  assert (Hstart : incl (fst (if b then vetted_scenarios self else scenarios self, @nil string))
                        (scenarios self)).
  { destruct b; simpl; [assumption | apply incl_refl]. }
  destruct (filter_category_mono _ _ _ from_v Hc eq_refl) as [c_v [Hc_v [Hxc_v _]]].
  destruct (filter_category_mono _ _ _ from_f Hc eq_refl) as [c_f [Hc_f [Hxc_f _]]].
  destruct (filter_category_mono _ _ _ from_f Hc_v eq_refl) as [c_f' [Hc_f' [_ Hc_incl]]].
  rewrite Hc_f in Hc_f'. injection Hc_f' as <-.
  destruct (filter_ip_mono _ _ _ c_v Hi Hxc_v) as [i_v [Hi_v [Hxi_v _]]].
  destruct (filter_ip_mono _ _ _ c_f Hi Hxc_f) as [i_f [Hi_f [Hxi_f _]]].
  assert (Hxc : snd c_v = snd c_f) by congruence.
  destruct (filter_ip_mono _ _ _ c_f Hi_v Hxc) as [i_f' [Hi_f' [_ Hi_incl]]].
  rewrite Hi_f in Hi_f'. injection Hi_f' as <-.
  assert (Hrows : incl (fst i_v) (fst i_f)) by (apply Hi_incl, Hc_incl; exact Hsub).
  assert (Hi_full : incl (fst i) (scenarios self)).
  { intros r Hr. apply Hstart. apply (filter_category_incl _ _ _ Hc).
    now apply (filter_ip_incl _ _ _ Hi). }
  rewrite Hc_v, Hc_f. simpl. rewrite Hi_v, Hi_f. simpl.
  destruct ssp as [a|].
  - destruct (filter_ssp_found _ _ _ _ H Hi_full) as [Hkeys Hfull].
    destruct (filter_ssp_ok (scenarios self) a i_v Hkeys Hfull) as [s_v Hs_v].
    destruct (filter_ssp_ok (scenarios self) a i_f Hkeys Hfull) as [s_f Hs_f].
    exists s_v, s_f. repeat split; try assumption.
    apply filter_ssp_inv in Hs_v as [Hk_v _]. apply filter_ssp_inv in Hs_f as [Hk_f _].
    intros n Hn. apply Hk_f. now apply Hk_v.
  - exists i_v, i_f. repeat split; try reflexivity. now apply incl_keys.
Qed.

(** Every row returned carries the metadata of a row of the filtered
    selection under its own label. *)
Lemma select_rows (self : Var) (category ip ssp : option Arg) (curpol ndc : option unit)
    (vetted : bool) (r : Selected) (st : Filter) :
  select IP_SCENARIOS SSP_SCENARIOS self category ip ssp curpol ndc vetted = inr r ->
  apply_filters IP_SCENARIOS SSP_SCENARIOS self category ip ssp vetted = inr st ->
  forall row, In row (sel_rows r) ->
    exists m, In (sel_name row, m) (fst st) /\ sel_key row = map (meta_column m) (snd st).
Proof.
  unfold select. intros H Hst. rewrite Hst in H. simpl in H.
  destruct curpol; [discriminate|]. destruct ndc; [discriminate|]. simpl in H.
  assert (Hmerged : forall row, In row (sel_rows r) ->
            exists row', In row' (merge_left (subset_frame (_values self) (fst st))
                                             (fst st) (snd st)) /\
                         sel_name row' = sel_name row /\ sel_key row' = sel_key row).
  { intros row Hrow. destruct (_values self); injection H as <-; simpl in Hrow.
    - exists row. split; [now apply In_sort_values | auto].
    - apply in_map_iff in Hrow as [row' [<- Hrow']]. exists row'.
      split; [now apply In_sort_values | auto]. }
  intros row Hrow. destruct (Hmerged row Hrow) as [row' [Hin [Hn Hk]]].
  assert (Hidx : In (sel_name row') (index (subset_frame (_values self) (fst st)))).
  { apply (merge_left_names _ (fst st) (snd st)). now apply in_map. }
  apply index_subset_frame in Hidx as [_ Hkeys].
  apply In_merge_left in Hin as [_ [[Hno _]|[m [Hm Hkey]]]]; [contradiction|].
  exists m. rewrite <- Hn, <- Hk. auto.
Qed.

(** Without an ssp filter every row returned is a row of the universe the
    [vetted] flag picks, its category is one of those asked for, and it is
    the canonical scenario of one of the ip names asked for. *)
Lemma select_sound_without_ssp (self : Var) (category ip : option Arg)
    (curpol ndc : option unit) (vetted : bool) (r : Selected) :
  select IP_SCENARIOS SSP_SCENARIOS self category ip None curpol ndc vetted = inr r ->
  forall row, In row (sel_rows r) ->
    exists m,
      In (sel_name row, m) (if vetted then vetted_scenarios self else scenarios self) /\
      (forall c, category = Some c -> isin (Category m) (requested_categories c) = true) /\
      (forall a, ip = Some a ->
         canon_of IP_SCENARIOS (requested IP_SCENARIOS a) (sel_name row)).
Proof.
  intros H row Hrow.
  destruct (select_names _ _ _ _ _ _ _ _ H) as [st [Hst _]].
  destruct (select_rows _ _ _ _ _ _ _ _ _ H Hst row Hrow) as [m [Hm _]].
  unfold apply_filters in Hst. unbind Hst as c Hc. unbind Hst as i Hi.
  injection Hst as <-.
  pose proof (filter_ip_incl _ _ _ Hi _ Hm) as Hm_c.
  pose proof (filter_category_incl _ _ _ Hc _ Hm_c) as Hm_0.
  exists m. split; [exact Hm_0|]. split.
  - intros a ->. apply filter_category_inv in Hc as [_ [Hc _]].
    rewrite Hc in Hm_c. now apply filter_In in Hm_c as [_ Hp].
  - intros a ->. apply filter_ip_inv in Hi as [w [Hw [Hi _]]].
    rewrite Hi in Hm. apply filter_In in Hm as [_ Hp]. apply Hw. now apply mem_In in Hp.
Qed.

(** With an ssp filter every row returned is the canonical scenario of one
    of the ssp names asked for. *)
Lemma select_ssp_rows_canonical (self : Var) (category ip : option Arg) (ssp : Arg)
    (curpol ndc : option unit) (vetted : bool) (r : Selected) :
  select IP_SCENARIOS SSP_SCENARIOS self category ip (Some ssp) curpol ndc vetted = inr r ->
  forall n, In n (sel_names r) -> canon_of SSP_SCENARIOS (requested SSP_SCENARIOS ssp) n.
Proof.
  intros H n Hn.
  destruct (select_names _ _ _ _ _ _ _ _ H) as [st [Hst [_ [_ Hnames]]]].
  destruct (proj1 (Hnames n) Hn) as [_ Hkey].
  unfold apply_filters in Hst. unbind Hst as c Hc. unbind Hst as i Hi.
  apply filter_ssp_inv in Hst as [Hk _]. now apply Hk.
Qed.

(** C2. A call [select(ssp=L, vetted=True)] in which every requested tag is a
    key of [SSP_SCENARIOS] whose canonical scenario is a row of the full
    universe and has values in this variable returns a table, and the table
    holds the canonical scenario of each requested tag; nothing is asked of
    the vetted sub-universe, so the scenario may be absent from it. *)
Theorem select_ssp_includes_canonical (self : Var) (ssp : Arg) :
  (forall t, In t (requested SSP_SCENARIOS ssp) ->
     exists m, assoc t SSP_SCENARIOS = Some m /\
               In (scenario m) (keys (scenarios self)) /\
               In (scenario m) (values_index (_values self))) ->
  exists r,
    select IP_SCENARIOS SSP_SCENARIOS self None None (Some ssp) None None true = inr r /\
    forall t m, In t (requested SSP_SCENARIOS ssp) -> assoc t SSP_SCENARIOS = Some m ->
                In (scenario m) (sel_names r).
Proof.
  intros Hreq.
  assert (Hkeys : forall t, In t (requested SSP_SCENARIOS ssp) -> In t (keys SSP_SCENARIOS)).
  { intros t Ht. destruct (Hreq t Ht) as [m [Hm _]]. apply assoc_Some_iff. now exists m. }
  assert (Hfull : forall n, canon_of SSP_SCENARIOS (requested SSP_SCENARIOS ssp) n ->
                            In n (keys (scenarios self))).
  { intros n [t [m [Ht [Hm <-]]]]. destruct (Hreq t Ht) as [m' [Hm' [Hin _]]]. congruence. }
  destruct (filter_ssp_ok (scenarios self) ssp (vetted_scenarios self, []) Hkeys Hfull)
    as [st Hst].
  assert (Hf : apply_filters IP_SCENARIOS SSP_SCENARIOS self None None (Some ssp) true = inr st)
    by exact Hst.
  destruct (select_ok self None None (Some ssp) true st Hf) as [r Hr].
  exists r. split; [assumption|]. intros t m Ht Hm.
  destruct (select_names _ _ _ _ _ _ _ _ Hr) as [st' [Hf' [_ [_ Hnames]]]].
  rewrite Hf in Hf'. injection Hf' as <-. apply Hnames.
  destruct (Hreq t Ht) as [m' [Hm' [_ Hval]]]. split; [congruence|].
  apply filter_ssp_inv in Hst as [Hk _]. apply Hk. now exists t, m.
Qed.

(** With the vetted sub-universe inside the full universe, [select] raises
    with [vetted=True] exactly when it raises with [vetted=False]. *)
Lemma select_vetted_raises_alike (self : Var) (category ip ssp : option Arg)
    (curpol ndc : option unit) :
  incl (vetted_scenarios self) (scenarios self) ->
  (exists r, select IP_SCENARIOS SSP_SCENARIOS self category ip ssp curpol ndc true = inr r)
  <-> (exists r, select IP_SCENARIOS SSP_SCENARIOS self category ip ssp curpol ndc false = inr r).
Proof.
  intros Hsub. split; intros [r Hr];
    destruct (select_names _ _ _ _ _ _ _ _ Hr) as [st [Hf [-> [-> _]]]];
    destruct (apply_filters_vetted _ _ _ _ _ _ Hsub Hf) as [st_v [st_f [Hv [Hfl _]]]].
  - exact (select_ok _ _ _ _ _ _ Hfl).
  - exact (select_ok _ _ _ _ _ _ Hv).
Qed.

(** C8. When the vetted sub-universe lies inside the full universe, then for
    the same category, ip and ssp arguments the scenarios returned with
    [vetted=True] are among those returned with [vetted=False]. *)
Theorem select_vetted_subset (self : Var) (category ip ssp : option Arg)
    (curpol ndc : option unit) (r_v r_f : Selected) :
  incl (vetted_scenarios self) (scenarios self) ->
  select IP_SCENARIOS SSP_SCENARIOS self category ip ssp curpol ndc true = inr r_v ->
  select IP_SCENARIOS SSP_SCENARIOS self category ip ssp curpol ndc false = inr r_f ->
  incl (sel_names r_v) (sel_names r_f).
Proof.
  intros Hsub Hv Hf.
  destruct (select_names _ _ _ _ _ _ _ _ Hv) as [st_v [Hfv [_ [_ Hnv]]]].
  destruct (select_names _ _ _ _ _ _ _ _ Hf) as [st_f [Hff [_ [_ Hnf]]]].
  destruct (apply_filters_vetted _ _ _ _ _ _ Hsub Hfv) as [st_v' [st_f' [Hv' [Hf' Hk]]]].
  rewrite Hfv in Hv'. injection Hv' as <-. rewrite Hff in Hf'. injection Hf' as <-.
  intros n Hn. apply Hnf. apply Hnv in Hn as [Hval Hsel]. split; [assumption|].
  now apply Hk.
Qed.

(** C10. In scalar mode [select] returns a series named "value", whatever the
    year token of the variable: two scalar-mode variables that differ in the
    year token alone give the same output, so the token cannot be read back
    from it.  In vector mode the table returned has the year labels of the
    variable as its columns. *)
Theorem select_scalar_named_value (category ip ssp : option Arg)
    (curpol ndc : option unit) (vetted : bool) :
  (forall self y r,
      _year self = YSingle y -> var_wf self ->
      select IP_SCENARIOS SSP_SCENARIOS self category ip ssp curpol ndc vetted = inr r ->
      exists index_names rws, r = SelSeries "value" index_names rws) /\
  (forall d sc vsc variable dflt its y y',
      select IP_SCENARIOS SSP_SCENARIOS
        (mkVar d sc vsc variable (YSingle y) (VSeries (mkSeries (Some y) its)) dflt)
        category ip ssp curpol ndc vetted
      = select IP_SCENARIOS SSP_SCENARIOS
          (mkVar d sc vsc variable (YSingle y') (VSeries (mkSeries (Some y') its)) dflt)
          category ip ssp curpol ndc vetted) /\
  (forall self l r,
      _year self = YList l -> var_wf self ->
      select IP_SCENARIOS SSP_SCENARIOS self category ip ssp curpol ndc vetted = inr r ->
      exists index_names rws, r = SelFrame index_names l rws).
Proof.
  split; [|split].
  - intros self y r Hy Hwf H. unfold var_wf in Hwf. rewrite Hy in Hwf.
    unfold select in H. unbind H as st Hst. unbind H as u1 Hu1. unbind H as u2 Hu2.
    destruct (_values self) as [f|s]; [contradiction|]. simpl in H.
    injection H as <-. now eexists _, _.
  - reflexivity.
  - intros self l r Hl Hwf H. unfold var_wf in Hwf. rewrite Hl in Hwf.
    unfold select in H. unbind H as st Hst. unbind H as u1 Hu1. unbind H as u2 Hu2.
    destruct (_values self) as [f|s]; [|contradiction]. simpl in H.
    injection H as <-. subst l. now eexists _, _.
Qed.

End Selection.

(** C1. [select(category="C3", ssp="SSP2-45")] on the small instance: the
    canonical scenario of SSP2-45, "M1 S1", is vetted and of category C1.  The
    category filter removes it, and the loop that is to add unvetted SSP
    scenarios back adds it again from the full universe, so the table returned
    has a row of category C1 although only C3 was asked for. *)
Theorem select_ssp_override_ignores_category :
  select Example.IP_SCENARIOS Example.SSP_SCENARIOS Example.energy
    (Some (One "C3")) None (Some (One "SSP2-45")) None None true
  = inr (SelFrame ["Category"; "SSP"; "Name"] ["2020"; "2030"]
           [mkSelRow [Some "C1"; Some "SSP2-45"] "M1 S1" [1.0%float; 1.5%float]]).
Proof. reflexivity. Qed.

(** The same call without the ssp filter returns no row. *)
Lemma select_category_alone_filters :
  select Example.IP_SCENARIOS Example.SSP_SCENARIOS Example.energy
    (Some (One "C3")) None None None None true
  = inr (SelFrame ["Category"; "Name"] ["2020"; "2030"] []).
Proof. reflexivity. Qed.

(** The concrete scenario of the specification. *)
Lemma select_all_categories_vetted :
  select Example.IP_SCENARIOS Example.SSP_SCENARIOS Example.energy
    (Some (One "all")) None None None None true
  = inr (SelFrame ["Category"; "Name"] ["2020"; "2030"]
           [mkSelRow [Some "C1"] "M1 S1" [1.0%float; 1.5%float]]).
Proof. reflexivity. Qed.

Lemma select_ssp_includes_canonical_witness :
  exists r,
    select Example.IP_SCENARIOS Example.SSP_SCENARIOS Example.energy
      None None (Some (Many ["SSP1-19"])) None None true = inr r /\
    In "M1 S2" (sel_names r) /\ ~ In "M1 S2" (keys Example.vetted).
Proof.
  destruct (select_ssp_includes_canonical Example.IP_SCENARIOS Example.SSP_SCENARIOS
              Example.energy (Many ["SSP1-19"])) as [r [Hr Hin]].
  - intros t [<-|[]]. exists (mkMarker "SSP1-19" "M1 S2"). simpl. auto.
  - exists r. split; [exact Hr|]. split.
    + apply (Hin "SSP1-19" (mkMarker "SSP1-19" "M1 S2")); [now left | reflexivity].
    + simpl. intros [H|[]]. discriminate.
Defined.

Lemma select_vetted_subset_witness :
  incl (sel_names (SelFrame ["Category"; "Name"] ["2020"; "2030"]
                     [mkSelRow [Some "C1"] "M1 S1" [1.0%float; 1.5%float]]))
       (sel_names (SelFrame ["Category"; "Name"] ["2020"; "2030"]
                     [mkSelRow [Some "C1"] "M1 S1" [1.0%float; 1.5%float];
                      mkSelRow [Some "C3"] "M1 S2" [2.0%float; 2.5%float]])).
Proof.
  apply (select_vetted_subset Example.IP_SCENARIOS Example.SSP_SCENARIOS Example.energy
           (Some (One "all")) None None None None).
  - intros r [<-|[]]. now left.
  - reflexivity.
  - reflexivity.
Defined.

Lemma select_scalar_named_value_witness :
  exists r index_names rws,
    select Example.IP_SCENARIOS Example.SSP_SCENARIOS Example.other2030
      (Some (One "all")) None None None None true = inr r /\
    r = SelSeries "value" index_names rws.
Proof.
  destruct (proj1 (select_scalar_named_value Example.IP_SCENARIOS Example.SSP_SCENARIOS
                     (Some (One "all")) None None None None true)
              Example.other2030 "2030" _ eq_refl eq_refl eq_refl) as [idx [rws E]].
  eexists _, idx, rws. split; [reflexivity | exact E].
Defined.

(** ** Construction *)

Lemma tbind_snd_inr {A B} (m : Traced A) (k : A -> Traced B) (b : B) :
  snd (tbind m k) = inr b -> exists a, snd m = inr a /\ snd (k a) = inr b.
Proof.
  destruct m as [t [e|a]]; simpl; [discriminate|]. intros H. now exists a.
Qed.

Lemma tbind_ok {A B} (m : Traced A) (k : A -> Traced B) (t : list Event) (a : A) :
  m = (t, inr a) -> tbind m k = (t ++ fst (k a), snd (k a)).
Proof. now intros ->. Qed.

Lemma check_labels_ok (cols ys : list string) :
  (forall y, In y ys -> In y cols) -> check_labels cols ys = inr tt.
Proof.
  induction ys as [|y ys IH]; simpl; intros H; [reflexivity|].
  assert (Hy : mem y cols = true) by (apply mem_In, H; now left).
  rewrite Hy. apply IH. intros z Hz. apply H. now right.
Qed.

Lemma frame_getitem_list_ok (f : Frame) (ys : list string) :
  (forall y, In y ys -> In y (columns f)) ->
  frame_getitem_list f ys
  = inr (mkFrame ys (map (fun r => (fst r, map (row_cell (columns f) (snd r)) ys)) (rows f))).
Proof.
  intros H. unfold frame_getitem_list. now rewrite (check_labels_ok _ _ H).
Qed.

Lemma frame_cell_selected (f : Frame) (ys : list string) (n y : string) :
  In y ys ->
  frame_cell (mkFrame ys (map (fun r => (fst r, map (row_cell (columns f) (snd r)) ys)) (rows f)))
             n y
  = frame_cell f n y.
Proof.
  intros Hy. unfold frame_cell. simpl.
  rewrite (assoc_map_snd (fun _ cells => map (row_cell (columns f) cells) ys)).
  destruct (assoc n (rows f)) as [cells|]; simpl; [|reflexivity].
  rewrite row_cell_map. apply mem_In in Hy. now rewrite Hy.
Qed.

Lemma index_map_rows (g : string * list cell -> list cell) (l : list (string * list cell)) :
  map fst (map (fun r => (fst r, g r)) l) = map fst l.
Proof. rewrite map_map. reflexivity. Qed.

Lemma row_cell_app (cols : list string) (F : string -> cell) (y : string) (c : cell)
    (y' : string) :
  ~ In y cols ->
  row_cell (cols ++ [y]) (map F cols ++ [c]) y'
  = if String.eqb y' y then c else if mem y' cols then F y' else nan.
Proof.
  intros Hy. unfold row_cell. induction cols as [|x cols IH]; simpl.
  - now destruct (String.eqb y' y).
  - destruct (String.eqb_spec y' x) as [->|N]; simpl.
    + destruct (String.eqb_spec x y) as [->|N']; [|reflexivity].
      exfalso. apply Hy. now left.
    + apply IH. intros H. apply Hy. now right.
Qed.

(** Reading a frame after [df[y] = s]. *)
Lemma frame_cell_setitem (f : Frame) (y : string) (s : list (string * cell)) (n y' : string) :
  frame_cell (frame_setitem f y s) n y'
  = if String.eqb y' y then (if mem n (index f) then aligned s n else nan)
    else frame_cell f n y'.
Proof.
  unfold frame_setitem, frame_cell.
  destruct (mem y (columns f)) eqn:Ey; simpl.
  - rewrite (assoc_map_snd
               (fun k cells => map (fun y' => if String.eqb y' y then aligned s k
                                              else row_cell (columns f) cells y') (columns f))).
    destruct (assoc n (rows f)) as [cells|] eqn:En; simpl.
    + assert (Hn : mem n (index f) = true).
      { apply mem_In. apply assoc_Some_iff. now exists cells. }
      rewrite Hn, row_cell_map. destruct (String.eqb_spec y' y) as [->|N].
      * now rewrite Ey.
      * destruct (mem y' (columns f)) eqn:Ey'; [reflexivity|].
        symmetry. apply row_cell_absent. now apply mem_false.
    + assert (Hn : mem n (index f) = false).
      { apply mem_false. now apply assoc_None_iff. }
      rewrite Hn. now destruct (String.eqb y' y).
  - rewrite (assoc_map_snd
               (fun k cells => map (row_cell (columns f) cells) (columns f) ++ [aligned s k])).
    destruct (assoc n (rows f)) as [cells|] eqn:En; simpl.
    + assert (Hn : mem n (index f) = true).
      { apply mem_In. apply assoc_Some_iff. now exists cells. }
      rewrite Hn, row_cell_app by now apply mem_false.
      destruct (String.eqb y' y); [reflexivity|].
      destruct (mem y' (columns f)) eqn:Ey'; [reflexivity|].
      symmetry. apply row_cell_absent. now apply mem_false.
    + assert (Hn : mem n (index f) = false).
      { apply mem_false. now apply assoc_None_iff. }
      rewrite Hn. now destruct (String.eqb y' y).
Qed.

Lemma index_setitem (f : Frame) (y : string) (s : list (string * cell)) :
  index (frame_setitem f y s) = index f.
Proof.
  unfold frame_setitem, index. destruct (mem y (columns f)); simpl; apply index_map_rows.
Qed.

Lemma columns_setitem (f : Frame) (y : string) (s : list (string * cell)) (y' : string) :
  In y' (columns (frame_setitem f y s)) <-> In y' (columns f) \/ y' = y.
Proof.
  unfold frame_setitem. destruct (mem y (columns f)) eqn:Ey; simpl.
  - apply mem_In in Ey. split; [now left | intros [H| ->]; assumption].
  - rewrite in_app_iff. simpl. intuition congruence.
Qed.

Lemma row_cell_map_cells (g : cell -> cell) (cols : list string) (cells : list cell)
    (y : string) :
  List.length cells = List.length cols -> In y cols ->
  row_cell cols (map g cells) y = g (row_cell cols cells y).
Proof.
  unfold row_cell. revert cells. induction cols as [|x cols IH]; intros [|c cells]; simpl;
    try discriminate; try tauto.
  intros [= Hlen] Hy. destruct (String.eqb_spec y x) as [->|N]; [reflexivity|].
  apply IH; [assumption|]. destruct Hy as [->|Hy]; [contradiction | assumption].
Qed.

Lemma frame_cell_map_cells (g : cell -> cell) (f : Frame) (n y : string) :
  rectangular f -> In n (index f) -> In y (columns f) ->
  frame_cell (mkFrame (columns f) (map (fun r => (fst r, map g (snd r))) (rows f))) n y
  = g (frame_cell f n y).
Proof.
  intros Hrect Hn Hy. unfold frame_cell. simpl.
  rewrite (assoc_map_snd (fun _ cells => map g cells)).
  apply assoc_Some_iff in Hn as [cells Hc]. rewrite Hc. simpl.
  apply row_cell_map_cells; [|assumption].
  apply assoc_In in Hc. unfold rectangular in Hrect. rewrite Forall_forall in Hrect.
  exact (Hrect _ Hc).
Qed.

Lemma rectangular_selected (cols ys : list string) (l : list (string * list cell)) :
  rectangular (mkFrame ys (map (fun r => (fst r, map (row_cell cols (snd r)) ys)) l)).
Proof.
  unfold rectangular. simpl. apply Forall_forall. intros r Hr.
  apply in_map_iff in Hr as [r' [<- _]]. simpl. apply List.length_map.
Qed.

Lemma rectangular_tabulate (idx cols : list string) (F : string -> string -> cell) :
  rectangular (tabulate idx cols F).
Proof.
  unfold rectangular, tabulate. simpl. apply Forall_forall. intros r Hr.
  apply in_map_iff in Hr as [n [<- _]]. simpl. apply List.length_map.
Qed.

Section Construction.

Variable YEARS : list string.
Variable get_interp : Dataset -> string -> cell -> list (string * cell).
Variable py_float : string -> option cell.

(** The interpolation loop: it raises only on a token that is no number, asks
    for one interpolation per token, in order, and writes one column each. *)
Lemma interpolate_years_spec (data : Dataset) (variable : string) (ys : list string)
    (f : Frame) :
  (forall y, In y ys -> exists x, py_float y = Some x) ->
  exists f',
    interpolate_years get_interp py_float data variable ys f
    = (flat_map (fun y => match py_float y with
                          | Some x => [Interpolate variable x]
                          | None => []
                          end) ys, inr f') /\
    index f' = index f /\
    (forall y, In y (columns f') <-> In y (columns f) \/ In y ys) /\
    (forall n y, frame_cell f' n y
                 = if mem y ys
                   then match py_float y with
                        | Some x => if mem n (index f)
                                    then aligned (get_interp data variable x) n else nan
                        | None => nan
                        end
                   else frame_cell f n y).
Proof.
  revert f. induction ys as [|y0 ys IH]; intros f Hparse.
  - exists f. simpl. split; [reflexivity|]. split; [reflexivity|].
    split; [intros y; tauto | reflexivity].
  - destruct (Hparse y0 (or_introl eq_refl)) as [x0 Hx0].
    destruct (IH (frame_setitem f y0 (get_interp data variable x0))) as [f' [Hrun [Hidx [Hcols Hcell]]]].
    { intros y Hy. apply Hparse. now right. }
    exists f'. simpl. rewrite Hx0. rewrite Hrun. simpl.
    split; [reflexivity|]. split; [now rewrite Hidx, index_setitem|]. split.
    + intros y. rewrite Hcols, columns_setitem. intuition congruence.
    + intros n y. rewrite Hcell, index_setitem, frame_cell_setitem.
      destruct (String.eqb_spec y y0) as [->|N]; simpl.
      * rewrite Hx0. now destruct (mem y0 ys).
      * reflexivity.
Qed.

Lemma interpolate_years_events (data : Dataset) (variable : string) (ys : list string)
    (f : Frame) (e : Event) :
  In e (fst (interpolate_years get_interp py_float data variable ys f)) ->
  exists y x, In y ys /\ py_float y = Some x /\ e = Interpolate variable x.
Proof.
  revert f. induction ys as [|y0 ys IH]; intros f; simpl; [intros []|].
  destruct (py_float y0) as [x0|] eqn:Hx0; simpl; [|intros []].
  intros [<-|He].
  - exists y0, x0. auto.
  - destruct (IH _ He) as [y [x [Hy Hx]]]. exists y, x. auto.
Qed.

Lemma interpolate_years_error (data : Dataset) (variable : string) (ys : list string)
    (f : Frame) (e : Error) :
  snd (interpolate_years get_interp py_float data variable ys f) = inl e ->
  exists y, In y ys /\ py_float y = None /\ e = ValueError y.
Proof.
  revert f. induction ys as [|y0 ys IH]; intros f; simpl; [discriminate|].
  destruct (py_float y0) as [x0|] eqn:Hx0; simpl.
  - intros He. destruct (IH _ He) as [y [Hy Hn]]. exists y. auto.
  - intros [= <-]. exists y0. auto.
Qed.

(** The end of the constructor: the trace it adds, and the variable it
    returns. *)
Lemma set_default_spec (self : Var) (dflt : option cell) :
  exists t,
    set_default self dflt
    = (SetAttr "default" :: t,
       inr (mkVar (data self) (scenarios self) (vetted_scenarios self) (_variable self)
                  (_year self)
                  (match dflt with Some d => fillna d (_values self) | None => _values self end)
                  dflt)) /\
    forall e, In e t -> e = SetAttr "_values".
Proof.
  destruct dflt as [d|]; simpl.
  - exists [SetAttr "_values"]. split; [reflexivity|]. intros e [<-|[]]. reflexivity.
  - exists []. split; [reflexivity|]. intros e [].
Qed.

(** The constructor on a table of values never raises. *)
Lemma init_from_values (data : Dataset) (sc vsc : Universe) (year : option Arg)
    (values : Values) (dflt : option cell) :
  exists t,
    __init__ YEARS get_interp py_float data sc vsc None year (Some values) dflt
    = (back_references ++ SetAttr "_year" :: SetAttr "_values" :: SetAttr "default" :: t,
       inr (mkVar data sc vsc None
              (match values with
               | VSeries s => YSingle (str_name (sname s))
               | VFrame f => YList (columns f)
               end)
              (match dflt with Some d => fillna d values | None => values end)
              dflt)) /\
    forall e, In e t -> e = SetAttr "_values".
Proof.
  destruct dflt as [d|]; simpl.
  - exists [SetAttr "_values"]. split; [reflexivity|]. intros e [<-|[]]. reflexivity.
  - exists []. split; [reflexivity|]. intros e [].
Qed.

Lemma existing_years_known (year : list string) (y : string) :
  In y (dedup (filter (fun y => mem y YEARS) year)) <-> In y year /\ In y YEARS.
Proof. now rewrite In_dedup, filter_In, mem_In. Qed.

Lemma interp_years_unknown (year : list string) (y : string) :
  In y (dedup (filter (fun y => negb (mem y YEARS)) year)) <-> In y year /\ ~ In y YEARS.
Proof. now rewrite In_dedup, filter_In, negb_true_iff, mem_false. Qed.

(** The table the constructor holds before the default is applied, when it is
    built from a variable name and every requested year outside the known
    years is a number. *)
Lemma init_from_variable (data : Dataset) (sc vsc : Universe) (variable : string)
    (year : option Arg) (dflt : option cell) :
  let requested_years := _to_list (match year with None => Many YEARS | Some y => y end) true in
  (forall y, In y requested_years -> ~ In y YEARS -> exists x, py_float y = Some x) ->
  exists t t' f v0,
    __init__ YEARS get_interp py_float data sc vsc (Some variable) year None dflt
    = (back_references ++
       [SetAttr "_variable"; SetAttr "_year";
        DataLookup variable (dedup (filter (fun y => mem y YEARS) requested_years));
        SetAttr "_values"] ++ t ++ SetAttr "_values" :: SetAttr "default" :: t',
       inr (mkVar data sc vsc (Some variable)
              (match year with Some (One y) => YSingle y | _ => YList requested_years end)
              (match dflt with Some d => fillna d v0 | None => v0 end) dflt)) /\
    (forall e, In e t -> exists y x, In y requested_years /\ ~ In y YEARS /\
                                     py_float y = Some x /\ e = Interpolate variable x) /\
    (forall e, In e t' -> e = SetAttr "_values") /\
    index f = map d_Name (filter (fun r => String.eqb (d_Variable r) variable) data) /\
    (forall n y, In y requested_years ->
       frame_cell f n y
       = if mem y YEARS then frame_cell (variable_frame YEARS data variable) n y
         else match py_float y with
              | Some x => if mem n (index f)
                          then aligned (get_interp data variable x) n else nan
              | None => nan
              end) /\
    v0 = match year with
         | Some (One y) =>
             VSeries (mkSeries (Some y) (map (fun r => (fst r, row_cell (columns f) (snd r) y)) (rows f)))
         | _ =>
             VFrame (mkFrame requested_years
                       (map (fun r => (fst r, map (row_cell (columns f) (snd r)) requested_years))
                            (rows f)))
         end.
Proof.
  intros ys Hparse. unfold __init__. cbv zeta.
  change (_to_list (match year with None => Many YEARS | Some y => y end) true) with ys.
  set (year' := match year with None => Many YEARS | Some y => y end).
  set (existing := dedup (filter (fun y => mem y YEARS) ys)).
  set (interp := dedup (filter (fun y => negb (mem y YEARS)) ys)).
  set (f0 := mkFrame existing
               (map (fun r => (fst r, map (row_cell YEARS (snd r)) existing))
                    (rows (variable_frame YEARS data variable)))).
  assert (Hf0 : frame_getitem_list (variable_frame YEARS data variable) existing = inr f0).
  { apply frame_getitem_list_ok. intros y Hy. now apply existing_years_known in Hy. }
  destruct (interpolate_years_spec data variable interp f0) as [f [Hrun [Hidx [Hcols Hcell]]]].
  { intros y Hy. apply interp_years_unknown in Hy as [Hy Hn]. now apply Hparse. }
  assert (Hall : forall y, In y ys -> In y (columns f)).
  { intros y Hy. apply Hcols. destruct (mem y YEARS) eqn:E.
    - left. apply existing_years_known. split; [assumption | now apply mem_In].
    - right. apply interp_years_unknown. split; [assumption | now apply mem_false]. }
  set (v0 := match year with
             | Some (One y) =>
                 VSeries (mkSeries (Some y) (map (fun r => (fst r, row_cell (columns f) (snd r) y)) (rows f)))
             | _ =>
                 VFrame (mkFrame ys
                           (map (fun r => (fst r, map (row_cell (columns f) (snd r)) ys)) (rows f)))
             end).
  set (yr := match year with Some (One y) => YSingle y | _ => YList ys end).
  set (t' := match dflt with Some _ => [SetAttr "_values"] | None => [] end).
  assert (Ht' : forall e, In e t' -> e = SetAttr "_values").
  { unfold t'. destruct dflt; intros e; [intros [<-|[]]; reflexivity | intros []]. }
  exists (fst (interpolate_years get_interp py_float data variable interp f0)), t', f, v0.
  split; [|split; [|split; [exact Ht'|split; [|split; [|reflexivity]]]]].
  - rewrite Hf0. simpl. rewrite Hrun. simpl.
    assert (Hsel : (match (if match year' with One _ => true | Many _ => false end
                           then YSingle (hd "" ys) else YList ys) with
                    | YList l => f' <- frame_getitem_list f l ;; ok (VFrame f')
                    | YSingle y => s <- frame_getitem f y ;; ok (VSeries s)
                    end) = inr v0 /\
                   (if match year' with One _ => true | Many _ => false end
                    then YSingle (hd "" ys) else YList ys) = yr).
    { unfold v0, yr, year'. subst ys. destruct year as [[y|l]|]; simpl.
      - unfold frame_getitem.
        assert (Hy : mem y (columns f) = true) by (apply mem_In, Hall; now left).
        now rewrite Hy.
      - now rewrite (frame_getitem_list_ok f l Hall).
      - now rewrite (frame_getitem_list_ok f YEARS Hall). }
    destruct Hsel as [Hsel Hyr]. rewrite Hsel, Hyr. simpl.
    unfold t'. destruct dflt; simpl; rewrite <- ?app_assoc; reflexivity.
  - intros e He. destruct (interpolate_years_events _ _ _ _ _ He) as [y [x [Hy [Hx ->]]]].
    apply interp_years_unknown in Hy as [Hy Hn]. exists y, x. auto.
  - rewrite Hidx. unfold f0, index, variable_frame. simpl. now rewrite !map_map.
  - intros n y Hy. rewrite Hcell, Hidx. destruct (mem y YEARS) eqn:E.
    + assert (Hni : mem y interp = false).
      { apply mem_false. intros H. apply interp_years_unknown in H as [_ H].
        apply H. now apply mem_In. }
      rewrite Hni. unfold f0. apply (frame_cell_selected (variable_frame YEARS data variable)).
      apply existing_years_known. split; [assumption | now apply mem_In].
    + assert (Hi : mem y interp = true).
      { apply mem_In, interp_years_unknown. split; [assumption | now apply mem_false]. }
      rewrite Hi. reflexivity.
Qed.

Lemma tbind_snd_inl {A B} (m : Traced A) (k : A -> Traced B) (e : Error) :
  snd (tbind m k) = inl e ->
  snd m = inl e \/ exists a, snd m = inr a /\ snd (k a) = inl e.
Proof.
  destruct m as [t [e'|a]]; simpl; intros H; [injection H as ->; now left | right; now exists a].
Qed.

Lemma check_labels_error (cols ys : list string) (e : Error) :
  check_labels cols ys = inl e -> exists y, e = KeyError y.
Proof.
  induction ys as [|y ys IH]; simpl; [discriminate|].
  destruct (mem y cols); [exact IH|]. intros [= <-]. now exists y.
Qed.

Lemma frame_getitem_list_error (f : Frame) (ys : list string) (e : Error) :
  frame_getitem_list f ys = inl e -> exists y, e = KeyError y.
Proof.
  unfold frame_getitem_list. destruct (check_labels (columns f) ys) as [e'|u] eqn:E; simpl.
  - intros [= <-]. now apply check_labels_error in E.
  - discriminate.
Qed.

Lemma frame_getitem_error (f : Frame) (y : string) (e : Error) :
  frame_getitem f y = inl e -> e = KeyError y.
Proof.
  unfold frame_getitem. destruct (mem y (columns f)); [discriminate|]. now intros [= <-].
Qed.

(** Whatever the constructor raises on the variable path, it is a failed
    lookup or a token that is no number. *)
Lemma init_from_variable_error (data : Dataset) (sc vsc : Universe) (variable : string)
    (year : option Arg) (dflt : option cell) (e : Error) :
  snd (__init__ YEARS get_interp py_float data sc vsc (Some variable) year None dflt) = inl e ->
  exists y, e = KeyError y \/ e = ValueError y.
Proof.
  unfold __init__. cbv zeta. intros H.
  repeat (apply tbind_snd_inl in H as [H|[? [_ H]]]; [discriminate|]).
  apply tbind_snd_inl in H as [H|[f0 [_ H]]].
  { simpl in H. apply frame_getitem_list_error in H as [y ->]. exists y. now left. }
  apply tbind_snd_inl in H as [H|[? [_ H]]]; [discriminate|].
  apply tbind_snd_inl in H as [H|[f1 [_ H]]].
  { apply interpolate_years_error in H as [y [_ [_ ->]]]. exists y. now right. }
  apply tbind_snd_inl in H as [H|[v [_ H]]].
  { simpl in H.
    destruct (if match match year with None => Many YEARS | Some y => y end with
                 | One _ => true | Many _ => false end
              then YSingle _ else YList _) as [y|l].
    - destruct (frame_getitem f1 y) as [e'|s] eqn:E; [|discriminate].
      injection H as <-. apply frame_getitem_error in E. exists y. now left.
    - destruct (frame_getitem_list f1 l) as [e'|s] eqn:E; [|discriminate].
      injection H as <-. apply frame_getitem_list_error in E as [y ->]. exists y. now left. }
  apply tbind_snd_inl in H as [H|[? [_ H]]]; [discriminate|].
  destruct (set_default_spec
              (mkVar data sc vsc (Some variable)
                 (if match match year with None => Many YEARS | Some y => y end with
                     | One _ => true | Many _ => false end
                  then YSingle (hd "" (_to_list match year with None => Many YEARS | Some y => y end true))
                  else YList (_to_list match year with None => Many YEARS | Some y => y end true))
                 v None) dflt) as [t [Hd _]].
  rewrite Hd in H. discriminate.
Qed.

(** A variable the constructor returns carries the default it was given, and
    its table went through the fill of that default. *)
Lemma init_result_default (data : Dataset) (sc vsc : Universe) (variable : option string)
    (year : option Arg) (values : option Values) (dflt : option cell) (v : Var) :
  snd (__init__ YEARS get_interp py_float data sc vsc variable year values dflt) = inr v ->
  default v = dflt /\
  exists v0, _values v = match dflt with Some d => fillna d v0 | None => v0 end.
Proof.
  destruct variable as [variable|], values as [values|]; try discriminate.
  - unfold __init__. cbv zeta. intros H.
    repeat (apply tbind_snd_inr in H as [? [_ H]]).
    destruct dflt as [d|]; simpl in H; injection H as <-; simpl;
      (split; [reflexivity | now eexists]).
  - destruct (init_from_values data sc vsc year values dflt) as [t [Hi _]].
    rewrite Hi. intros [= <-]. simpl. split; [reflexivity | now eexists].
Qed.

(** The constructor returns variables whose mode and table agree. *)
Lemma init_wf (data : Dataset) (sc vsc : Universe) (variable : option string)
    (year : option Arg) (values : option Values) (dflt : option cell) (v : Var) :
  snd (__init__ YEARS get_interp py_float data sc vsc variable year values dflt) = inr v ->
  var_wf v.
Proof.
  destruct variable as [variable|], values as [values|]; try discriminate.
  - unfold __init__. cbv zeta. intros H.
    do 8 (apply tbind_snd_inr in H as [? [_ H]]).
    apply tbind_snd_inr in H as [f1 [_ H]].
    apply tbind_snd_inr in H as [v0 [Hv0 H]].
    apply tbind_snd_inr in H as [? [_ H]].
    match type of H with
    | snd (set_default ?self dflt) = _ =>
        destruct (set_default_spec self dflt) as [t [Hd _]]; rewrite Hd in H
    end.
    injection H as <-. unfold var_wf. simpl. simpl in Hv0.
    destruct (if match match year with None => Many YEARS | Some y => y end with
                 | One _ => true | Many _ => false end
              then YSingle _ else YList _) as [y|l].
    + unfold frame_getitem in Hv0. destruct (mem y (columns f1)); [|discriminate].
      injection Hv0 as <-. now destruct dflt.
    + unfold frame_getitem_list in Hv0.
      destruct (check_labels (columns f1) l); [discriminate|].
      injection Hv0 as <-. now destruct dflt.
  - destruct (init_from_values data sc vsc year values dflt) as [t [Hi _]].
    rewrite Hi. intros [= <-]. unfold var_wf. simpl.
    destruct values as [f|s], dflt; reflexivity.
Qed.

(** C7. With both a variable name and a table of values, and with neither,
    the constructor raises the ambiguous-construction error having stored the
    three back-references and nothing else: no attribute is set after them, no
    dataset row is read and no interpolation is asked for.  With exactly one
    of the two it does not raise that error and goes on to set a further
    attribute. *)
Theorem init_rejects_ambiguous (data : Dataset) (sc vsc : Universe)
    (variable : option string) (year : option Arg) (values : option Values)
    (dflt : option cell) :
  match variable, values with
  | None, None | Some _, Some _ =>
      exists msg,
        __init__ YEARS get_interp py_float data sc vsc variable year values dflt
        = (back_references, inl (AmbiguousConstruction msg))
  | _, _ =>
      (forall msg,
          snd (__init__ YEARS get_interp py_float data sc vsc variable year values dflt)
          <> inl (AmbiguousConstruction msg)) /\
      exists attr t,
        fst (__init__ YEARS get_interp py_float data sc vsc variable year values dflt)
        = back_references ++ SetAttr attr :: t
  end.
Proof.
  destruct variable as [variable|], values as [values|].
  - now eexists.
  - split.
    + intros msg H. apply init_from_variable_error in H as [y [H|H]]; discriminate.
    + unfold __init__. cbv zeta. simpl. now eexists _, _.
  - destruct (init_from_values data sc vsc year values dflt) as [t [Hi _]].
    rewrite Hi. simpl. split; [discriminate | now eexists _, _].
  - now eexists.
Qed.

(** C9, as the code has it.  Filling with a default is idempotent, whatever
    the default.  A variable constructed with a default that is a number, that
    is neither None nor NaN, has no missing value in its table, and filling
    its table again leaves it as it is. *)
Theorem default_fill_idempotent_complete :
  (forall d v, fillna d (fillna d v) = fillna d v) /\
  (forall data sc vsc variable year values d v,
      is_nan d = false ->
      snd (__init__ YEARS get_interp py_float data sc vsc variable year values (Some d)) = inr v ->
      has_missing (_values v) = false /\ fillna d (_values v) = _values v).
Proof.
  split; [exact fillna_idempotent|].
  intros data sc vsc variable year values d v Hd H.
  apply init_result_default in H as [_ [v0 ->]]. split.
  - now apply fillna_no_missing.
  - apply fillna_idempotent.
Qed.

(** C6, as the code has it.  Constructed from a variable name and a list [Y]
    of years whose tokens outside the known years are numbers, the variable is
    in vector mode with the columns [Y] in the order asked and one row per
    dataset row of that variable.  A cell under a known year is the dataset
    cell, a cell under any other year is the value the Interpolation Service
    returns for that year and that scenario, in both cases with a missing
    value replaced by the default when there is one.  Every interpolation asked
    for is for a requested year outside the known years. *)
Theorem init_from_variable_years (data : Dataset) (sc vsc : Universe) (variable : string)
    (Y : list string) (dflt : option cell) :
  (forall y, In y Y -> ~ In y YEARS -> exists x, py_float y = Some x) ->
  exists tr v g,
    __init__ YEARS get_interp py_float data sc vsc (Some variable) (Some (Many Y)) None dflt
    = (tr, inr v) /\
    _year v = YList Y /\ _values v = VFrame g /\ columns g = Y /\
    index g = map d_Name (filter (fun r => String.eqb (d_Variable r) variable) data) /\
    (forall n y, In n (index g) -> In y Y -> In y YEARS ->
       frame_cell g n y
       = default_cell dflt (frame_cell (variable_frame YEARS data variable) n y)) /\
    (forall n y x, In n (index g) -> In y Y -> ~ In y YEARS -> py_float y = Some x ->
       frame_cell g n y = default_cell dflt (aligned (get_interp data variable x) n)) /\
    (forall variable' x, In (Interpolate variable' x) tr ->
       variable' = variable /\
       exists y, In y Y /\ ~ In y YEARS /\ py_float y = Some x).
Proof.
  intros Hparse.
  destruct (init_from_variable data sc vsc variable (Some (Many Y)) dflt Hparse)
    as [t [t' [f [v0 [Hinit [Ht [Ht' [Hidx [Hcell Hv0]]]]]]]]].
  simpl in Hinit, Ht, Hcell, Hv0.
  set (fsel := mkFrame Y (map (fun r => (fst r, map (row_cell (columns f) (snd r)) Y)) (rows f))) in *.
  assert (Hsel_idx : index fsel = index f) by apply index_map_rows.
  assert (Hrect : rectangular fsel) by apply rectangular_selected.
  set (g := match dflt with
            | Some d => mkFrame (columns fsel)
                          (map (fun r => (fst r, map (fill_cell d) (snd r))) (rows fsel))
            | None => fsel
            end).
  assert (Hg_idx : index g = index f).
  { unfold g. destruct dflt; [|assumption]. unfold index at 1. simpl.
    now rewrite index_map_rows. }
  assert (Hg_cell : forall n y, In n (index g) -> In y Y ->
                                frame_cell g n y = default_cell dflt (frame_cell f n y)).
  { intros n y Hn Hy. rewrite Hg_idx, <- Hsel_idx in Hn. unfold g.
    destruct dflt as [d|]; unfold default_cell.
    - rewrite (frame_cell_map_cells (fill_cell d) fsel n y Hrect Hn Hy).
      f_equal. now apply frame_cell_selected.
    - now apply frame_cell_selected. }
  eexists _, _, g. split; [exact Hinit|]. simpl.
  split; [reflexivity|]. split; [subst v0; unfold g; now destruct dflt|].
  split; [unfold g; now destruct dflt|]. split; [now rewrite Hg_idx|].
  split; [|split].
  - intros n y Hn Hy Hk. rewrite (Hg_cell n y Hn Hy), (Hcell n y Hy).
    apply mem_In in Hk. now rewrite Hk.
  - intros n y x Hn Hy Hk Hx. rewrite (Hg_cell n y Hn Hy), (Hcell n y Hy).
    apply mem_false in Hk. rewrite Hk, Hx.
    rewrite Hg_idx in Hn. apply mem_In in Hn. now rewrite Hn.
  - intros variable' x Hin. unfold back_references in Hin. simpl in Hin.
    repeat (destruct Hin as [Hin|Hin]; [discriminate|]).
    apply in_app_iff in Hin as [Hin|Hin].
    + destruct (Ht _ Hin) as [y [x' [Hy [Hk [Hx [= -> ->]]]]]]. split; [reflexivity|].
      now exists y.
    + destruct Hin as [Hin|[Hin|Hin]]; try discriminate.
      apply Ht' in Hin. discriminate.
Qed.

End Construction.

Lemma default_fill_idempotent_complete_witness :
  exists v,
    snd (Example.new_var (Some "Other") (Some (One "2020")) None (Some 0%float)) = inr v /\
    has_missing (_values v) = false /\ fillna 0%float (_values v) = _values v.
Proof.
  eexists. split; [reflexivity|].
  apply (proj2 (default_fill_idempotent_complete Example.YEARS Example.get_interp
                  Example.py_float)
           Example.dataset Example.universe Example.vetted
           (Some "Other") (Some (One "2020")) None 0%float); reflexivity.
Defined.

(** C9 as stated fails for a default that is NaN: [default=float("nan")] is
    not None, the fill runs and changes nothing, and the missing value of
    "Other" in 2020 is still there. *)
Lemma init_default_nan_keeps_missing :
  exists v,
    snd (Example.new_var (Some "Other") (Some (One "2020")) None (Some nan)) = inr v /\
    default v = Some nan /\ has_missing (_values v) = true.
Proof. eexists. repeat split; reflexivity. Qed.

Lemma init_from_variable_years_witness :
  exists tr v g,
    Example.new_var (Some "Energy Supply") (Some (Many ["2030"; "2025"; "2020"])) None None
    = (tr, inr v) /\
    _values v = VFrame g /\ columns g = ["2030"; "2025"; "2020"] /\
    frame_cell g "M1 S2" "2030" = 2.5%float.
Proof.
  destruct (init_from_variable_years Example.YEARS Example.get_interp Example.py_float
              Example.dataset Example.universe Example.vetted "Energy Supply"
              ["2030"; "2025"; "2020"] None)
    as [tr [v [g [Hinit [_ [Hv [Hcols [_ [Hknown _]]]]]]]]].
  - intros y [<-|[<-|[<-|[]]]] Hn.
    + exfalso. apply Hn. simpl. auto.
    + now exists 2025%float.
    + exfalso. apply Hn. simpl. auto.
  - exists tr, v, g. repeat split; try assumption.
    assert (Hg : g = mkFrame ["2030"; "2025"; "2020"]
                       [("M1 S1", [1.5%float; nan; 1.0%float]);
                        ("M1 S2", [2.5%float; nan; 2.0%float])]).
    { unfold Example.new_var in Hinit. vm_compute in Hinit.
      injection Hinit as _ <-. simpl in Hv. now injection Hv as <-. }
    rewrite Hg. reflexivity.
Defined.

(** C6 as stated fails when a default is given: "Other" is missing in 2020
    and its interpolation for 2025 is missing too, yet with [default=0.0] the
    final table holds 0.0 in both columns. *)
Lemma init_default_replaces_interpolated :
  exists tr v g,
    Example.new_var (Some "Other") (Some (Many ["2020"; "2025"])) None (Some 0%float)
    = (tr, inr v) /\
    _values v = VFrame g /\
    frame_cell g "M1 S1" "2025" = 0%float /\
    aligned (Example.get_interp Example.dataset "Other" 2025%float) "M1 S1" = nan /\
    frame_cell g "M1 S1" "2025"
    <> aligned (Example.get_interp Example.dataset "Other" 2025%float) "M1 S1" /\
    frame_cell g "M1 S1" "2020" = 0%float /\
    frame_cell (variable_frame Example.YEARS Example.dataset "Other") "M1 S1" "2020" = nan.
Proof.
  eexists _, _, _. split; [reflexivity|]. split; [reflexivity|].
  repeat split; try reflexivity.
  intros H. apply (f_equal is_nan) in H. vm_compute in H. discriminate.
Qed.

(** ** Arithmetic *)

Lemma apply_default_tabulate (d : option cell) (idx cols : list string)
    (F : string -> string -> cell) :
  apply_default d (VFrame (tabulate idx cols F))
  = VFrame (tabulate idx cols (fun n y => default_cell d (F n y))).
Proof.
  destruct d as [d|]; simpl; [|reflexivity]. unfold tabulate. simpl. f_equal. f_equal.
  rewrite map_map. apply map_ext. intros n. simpl. now rewrite map_map.
Qed.

Lemma apply_default_stabulate (d : option cell) (nm : option string) (idx : list string)
    (F : string -> cell) :
  apply_default d (VSeries (stabulate nm idx F))
  = VSeries (stabulate nm idx (fun n => default_cell d (F n))).
Proof.
  destruct d as [d|]; simpl; [|reflexivity]. unfold stabulate. simpl. f_equal. f_equal.
  rewrite map_map. reflexivity.
Qed.

Lemma values_row_tabulate (idx cols : list string) (F : string -> string -> cell) (n : string) :
  In n idx -> values_row (VFrame (tabulate idx cols F)) n = Some (map (F n) cols).
Proof.
  intros Hn. simpl. rewrite (assoc_tabulated (fun k => map (fun y => F k y) cols)).
  apply mem_In in Hn. now rewrite Hn.
Qed.

Lemma values_row_stabulate (nm : option string) (idx : list string) (F : string -> cell)
    (n : string) :
  In n idx -> values_row (VSeries (stabulate nm idx F)) n = Some [F n].
Proof.
  intros Hn. simpl. rewrite assoc_tabulated. apply mem_In in Hn. now rewrite Hn.
Qed.

Lemma frame_cell_no_row (f : Frame) (n y : string) : ~ In n (index f) -> frame_cell f n y = nan.
Proof.
  intros Hn. unfold frame_cell. apply assoc_None_iff in Hn. now rewrite Hn.
Qed.

Lemma series_cell_no_row (s : Series) (n : string) : ~ In n (sindex s) -> series_cell s n = nan.
Proof.
  intros Hn. unfold series_cell. apply assoc_None_iff in Hn. now rewrite Hn.
Qed.

Lemma default_cell_nan (d : option cell) : default_cell d nan = filler d.
Proof. now destruct d. Qed.

(** The frame [pd.DataFrame({year: s for year in years})] of a series: every
    column holds the series. *)
Lemma broadcast_series (years : list string) (s : Series) :
  exists h, broadcast years (VSeries s) = inr h /\
            columns h = dedup years /\
            (years <> [] -> index h = sindex s) /\
            (forall n, In n (index h) -> In n (sindex s)) /\
            (forall n y, In y (dedup years) -> frame_cell h n y = series_cell s n).
Proof.
  unfold broadcast. destruct (dedup years) as [|c cols] eqn:E.
  - exists (mkFrame [] []). repeat split; auto.
    + intros H. destruct years; [contradiction | discriminate].
    + intros n [].
    + intros n y [].
  - set (h := mkFrame (c :: cols)
                (map (fun r => (fst r, map (fun _ => snd r) (c :: cols))) (items s))).
    assert (Hidx : index h = sindex s).
    { unfold h, index, sindex. cbn [rows]. now rewrite map_map. }
    exists h. split; [reflexivity|]. split; [reflexivity|].
    split; [intros _; exact Hidx|]. split; [intros n; now rewrite Hidx|].
    intros n y Hy. unfold frame_cell, series_cell, h. cbn [rows columns].
    rewrite (assoc_map_snd (fun _ v => map (fun _ => v) (c :: cols))).
    destruct (assoc n (items s)) as [v|]; [|reflexivity]. cbn [option_map].
    rewrite (row_cell_map (fun _ => v)). apply mem_In in Hy. now rewrite Hy.
Qed.

Section Arithmetic.

Variable YEARS : list string.
Variable get_interp : Dataset -> string -> cell -> list (string * cell).
Variable py_float : string -> option cell.

(** An operator returns the variable built from the combined table, with the
    default of the left operand applied, unless the harmonisation raises. *)
Lemma arith_spec (op : binop) (self : Var) (other : Operand) :
  arith YEARS get_interp py_float op self other
  = match _check_and_harmonise_inputs self other with
    | inl e => inl e
    | inr p =>
        inr (mkVar (data self) (scenarios self) (vetted_scenarios self) None
               (values_year (values_binop op (fst p) (snd p)))
               (apply_default (default self) (values_binop op (fst p) (snd p)))
               (default self))
    end.
Proof.
  unfold arith. destruct (_check_and_harmonise_inputs self other) as [e|p]; [reflexivity|].
  cbn [bind].
  destruct (init_from_values YEARS get_interp py_float (data self) (scenarios self)
              (vetted_scenarios self) None (values_binop op (fst p) (snd p)) (default self))
    as [t [Hi _]].
  now rewrite Hi.
Qed.

(** The cells of the table an operator returns for two frames, read by
    label. *)
Lemma frame_binop_default (op : binop) (d : option cell) (a b : Frame) :
  exists g,
    apply_default d (VFrame (frame_binop op a b)) = VFrame g /\
    columns g = label_union (columns a) (columns b) /\
    index g = label_union (index a) (index b) /\
    (forall n y, In n (index g) -> In y (columns g) ->
       frame_cell g n y = default_cell d (eval_op op (frame_cell a n y) (frame_cell b n y))).
Proof.
  unfold frame_binop. rewrite apply_default_tabulate. eexists. split; [reflexivity|].
  split; [reflexivity|]. rewrite index_tabulate. split; [reflexivity|].
  intros n y Hn Hy. now rewrite frame_cell_tabulate.
Qed.

(** A scenario that only one of two frames holds gets a row of fillers. *)
Lemma frame_binop_unmatched (op : binop) (d : option cell) (a b : Frame) (n : string) :
  (In n (index a) /\ ~ In n (index b)) \/ (~ In n (index a) /\ In n (index b)) ->
  exists row,
    values_row (apply_default d (VFrame (frame_binop op a b))) n = Some row /\
    Forall (fun c => c = filler d) row.
Proof.
  intros Hn. unfold frame_binop. rewrite apply_default_tabulate.
  rewrite values_row_tabulate by (apply In_label_union; tauto).
  eexists. split; [reflexivity|]. apply Forall_forall. intros c Hc.
  apply in_map_iff in Hc as [y [<- _]]. rewrite <- default_cell_nan. f_equal.
  destruct Hn as [[_ Hb]|[Ha _]].
  - rewrite (frame_cell_no_row b n y Hb). apply eval_op_nan_r.
  - rewrite (frame_cell_no_row a n y Ha). apply eval_op_nan_l.
Qed.

Lemma series_binop_unmatched (op : binop) (d : option cell) (a b : Series) (n : string) :
  (In n (sindex a) /\ ~ In n (sindex b)) \/ (~ In n (sindex a) /\ In n (sindex b)) ->
  exists row,
    values_row (apply_default d (VSeries (series_binop op a b))) n = Some row /\
    Forall (fun c => c = filler d) row.
Proof.
  intros Hn. unfold series_binop. rewrite apply_default_stabulate.
  rewrite values_row_stabulate by (apply In_label_union; tauto).
  eexists. split; [reflexivity|]. constructor; [|constructor].
  rewrite <- default_cell_nan. f_equal.
  destruct Hn as [[_ Hb]|[Ha _]].
  - rewrite (series_cell_no_row b n Hb). apply eval_op_nan_r.
  - rewrite (series_cell_no_row a n Ha). apply eval_op_nan_l.
Qed.

(** C3. For two vector-mode variables an operator raises exactly when their
    year labels differ as sets, and what it raises is the year-incompatibility
    error.  When the sets are equal it returns the variable built from the
    combined table, and the combined table has those years as columns, the
    scenarios of both operands as rows, and at a scenario and a year the
    operation applied to the cells of the two operands under the same two
    labels, wherever the columns stand.  (The constructor of the result then
    applies the default of the left operand, as it does to every table.) *)
Theorem vector_arith_by_label (op : binop) (v1 v2 : Var) (f1 f2 : Frame) :
  _year v1 = YList (columns f1) -> _values v1 = VFrame f1 ->
  _year v2 = YList (columns f2) -> _values v2 = VFrame f2 ->
  ((exists e, arith YEARS get_interp py_float op v1 (Variable_ v2) = inl e)
   <-> ~ (forall y, In y (columns f1) <-> In y (columns f2))) /\
  (forall e, arith YEARS get_interp py_float op v1 (Variable_ v2) = inl e ->
             e = IncompatibleYears (columns f1) (columns f2)) /\
  ((forall y, In y (columns f1) <-> In y (columns f2)) ->
   exists r combined,
     arith YEARS get_interp py_float op v1 (Variable_ v2) = inr r /\
     _values r = apply_default (default v1) (VFrame combined) /\
     (forall y, In y (columns combined) <-> In y (columns f1)) /\
     (forall n, In n (index combined) <-> In n (index f1) \/ In n (index f2)) /\
     (forall n y, In n (index combined) -> In y (columns combined) ->
        frame_cell combined n y = eval_op op (frame_cell f1 n y) (frame_cell f2 n y))).
Proof.
  intros Hy1 Hv1 Hy2 Hv2. rewrite arith_spec. unfold _check_and_harmonise_inputs.
  rewrite Hy1, Hy2, Hv1, Hv2.
  destruct (set_eqb (columns f1) (columns f2)) eqn:E; simpl.
  - pose proof (proj1 (set_eqb_spec _ _) E) as Hsame. split; [|split].
    + split; [intros [e He]; discriminate | intros Hn; contradiction].
    + discriminate.
    + intros _. destruct (frame_binop_default op None f1 f2)
        as [g [Hg [Hcols [Hidx Hcell]]]].
      cbn [apply_default] in Hg. injection Hg as Hg. cbn [default_cell] in Hcell.
      eexists _, g. split; [reflexivity|]. cbn [_values]. split; [now rewrite Hg|].
      split; [|split; [|exact Hcell]].
      * intros y. rewrite Hcols, In_label_union. specialize (Hsame y). tauto.
      * intros n. rewrite Hidx. apply In_label_union.
  - assert (Hdiff : ~ (forall y, In y (columns f1) <-> In y (columns f2))).
    { intros H. apply set_eqb_spec in H. congruence. }
    split; [|split].
    + split; [intros _; exact Hdiff | intros _; now eexists].
    + now intros e [= <-].
    + intros H. contradiction.
Qed.

(** C4, as the code has it.  For a vector-mode variable [v] with distinct
    year labels and a scalar-mode variable [s], [v OP s] is a vector-mode
    variable with the years of [v], in their order, whose cell at a scenario
    and a year is the cell of [v] there combined with the value of [s] at the
    scenario, a missing result being replaced by the default of [v] when it
    has one; [s OP v] is alike with the operands exchanged and the default of
    [s]. *)
Theorem vector_scalar_broadcast (op : binop) (v s : Var) (f : Frame) (sr : Series)
    (y0 : string) :
  _year v = YList (columns f) -> _values v = VFrame f -> NoDup (columns f) ->
  _year s = YSingle y0 -> _values s = VSeries sr ->
  (exists r g,
     arith YEARS get_interp py_float op v (Variable_ s) = inr r /\
     _year r = YList (columns f) /\ _values r = VFrame g /\ columns g = columns f /\
     (forall n, In n (index f) -> In n (index g)) /\
     (columns f <> [] -> forall n, In n (sindex sr) -> In n (index g)) /\
     (forall n y, In n (index g) -> In y (columns f) ->
        frame_cell g n y
        = default_cell (default v) (eval_op op (frame_cell f n y) (series_cell sr n)))) /\
  (exists r g,
     arith YEARS get_interp py_float op s (Variable_ v) = inr r /\
     _year r = YList (columns f) /\ _values r = VFrame g /\ columns g = columns f /\
     (forall n, In n (index f) -> In n (index g)) /\
     (columns f <> [] -> forall n, In n (sindex sr) -> In n (index g)) /\
     (forall n y, In n (index g) -> In y (columns f) ->
        frame_cell g n y
        = default_cell (default s) (eval_op op (series_cell sr n) (frame_cell f n y)))).
Proof.
  intros Hyv Hvv Hnd Hys Hvs.
  destruct (broadcast_series (columns f) sr) as [h [Hh [Hcols [Hidx [_ Hcell]]]]].
  rewrite (dedup_NoDup _ Hnd) in Hcols, Hcell.
  split.
  - rewrite arith_spec. unfold _check_and_harmonise_inputs. rewrite Hyv, Hys, Hvs, Hh, Hvv.
    cbn [bind ok fst snd values_binop].
    destruct (frame_binop_default op (default v) f h) as [g [Hg [Hgc [Hgi Hgcell]]]].
    rewrite Hcols, label_union_same in Hgc.
    eexists _, g. split; [reflexivity|]. cbn [_year _values values_year].
    split; [unfold frame_binop, tabulate; cbn [columns]; now rewrite Hcols, label_union_same|].
    split; [exact Hg|]. split; [exact Hgc|].
    split; [intros n Hn; rewrite Hgi; apply In_label_union; now left|].
    split; [intros Hne n Hn; rewrite Hgi; apply In_label_union; right; now rewrite (Hidx Hne)|].
    intros n y Hn Hy. rewrite Hgcell by (try assumption; now rewrite Hgc).
    now rewrite (Hcell n y Hy).
  - rewrite arith_spec. unfold _check_and_harmonise_inputs. rewrite Hyv, Hys, Hvs, Hh, Hvv.
    cbn [bind ok fst snd values_binop].
    destruct (frame_binop_default op (default s) h f) as [g [Hg [Hgc [Hgi Hgcell]]]].
    rewrite Hcols, label_union_same in Hgc.
    eexists _, g. split; [reflexivity|]. cbn [_year _values values_year].
    split; [unfold frame_binop, tabulate; cbn [columns]; now rewrite Hcols, label_union_same|].
    split; [exact Hg|]. split; [exact Hgc|].
    split; [intros n Hn; rewrite Hgi; apply In_label_union; now right|].
    split; [intros Hne n Hn; rewrite Hgi; apply In_label_union; left; now rewrite (Hidx Hne)|].
    intros n y Hn Hy. rewrite Hgcell by (try assumption; now rewrite Hgc).
    now rewrite (Hcell n y Hy).
Qed.

(** C5, as the code has it.  Between two variables whose mode and table
    agree and which have a year, an operator raises only for two vector-mode
    operands with different year sets.  When it returns, a scenario that only
    one operand holds has a row in the table of the result, and every cell of
    that row is missing when the left operand has no default and is that
    default otherwise. *)
Theorem arith_unmatched_scenario (op : binop) (v1 v2 : Var) :
  var_wf v1 -> var_wf v2 -> has_year v1 -> has_year v2 ->
  (forall e, arith YEARS get_interp py_float op v1 (Variable_ v2) = inl e ->
     exists l1 l2, _year v1 = YList l1 /\ _year v2 = YList l2 /\
                   e = IncompatibleYears l1 l2 /\
                   ~ (forall y, In y l1 <-> In y l2)) /\
  (forall r n,
     arith YEARS get_interp py_float op v1 (Variable_ v2) = inr r ->
     (In n (values_index (_values v1)) /\ ~ In n (values_index (_values v2))) \/
     (~ In n (values_index (_values v1)) /\ In n (values_index (_values v2))) ->
     exists row, values_row (_values r) n = Some row /\
                 Forall (fun c => c = filler (default v1)) row).
Proof.
  intros Hwf1 Hwf2 Hy1 Hy2. rewrite arith_spec. unfold _check_and_harmonise_inputs.
  unfold var_wf in Hwf1, Hwf2. unfold has_year in Hy1, Hy2.
  destruct (_year v1) as [y1|l1] eqn:E1, (_values v1) as [f1|s1] eqn:V1; try contradiction;
  destruct (_year v2) as [y2|l2] eqn:E2, (_values v2) as [f2|s2] eqn:V2; try contradiction;
  cbn [values_index].
  - (* both in scalar mode *)
    cbn [bind ok fst snd values_binop]. split; [discriminate|].
    intros r n [= <-] Hn. cbn [_values]. now apply series_binop_unmatched.
  - (* scalar against vector *)
    destruct (broadcast_series l2 s1) as [h [Hh [_ [Hidx _]]]]. rewrite Hh.
    cbn [bind ok fst snd values_binop]. split; [discriminate|].
    intros r n [= <-] Hn. cbn [_values]. apply frame_binop_unmatched.
    rewrite Hidx; [assumption|]. intros ->. contradiction.
  - (* vector against scalar *)
    destruct (broadcast_series l1 s2) as [h [Hh [_ [Hidx _]]]]. rewrite Hh.
    cbn [bind ok fst snd values_binop]. split; [discriminate|].
    intros r n [= <-] Hn. cbn [_values]. apply frame_binop_unmatched.
    rewrite Hidx; [assumption|]. intros ->. contradiction.
  - (* both in vector mode *)
    destruct (set_eqb l1 l2) eqn:E; cbn [negb bind ok raise fst snd values_binop].
    + split; [discriminate|]. intros r n [= <-] Hn. cbn [_values].
      now apply frame_binop_unmatched.
    + split; [|discriminate]. intros e [= <-]. exists l1, l2. repeat split.
      intros H. apply set_eqb_spec in H. congruence.
Qed.

End Arithmetic.

Lemma vector_arith_by_label_witness :
  exists r combined,
    __add__ Example.YEARS Example.get_interp Example.py_float
      Example.energy (Variable_ Example.energy0) = inr r /\
    _values r = VFrame combined /\
    frame_cell combined "M1 S2" "2030" = 5%float.
Proof.
  destruct (vector_arith_by_label Example.YEARS Example.get_interp Example.py_float Add
              Example.energy Example.energy0
              (mkFrame ["2020"; "2030"]
                 [("M1 S1", [1.0%float; 1.5%float]); ("M1 S2", [2.0%float; 2.5%float])])
              (mkFrame ["2020"; "2030"]
                 [("M1 S1", [1.0%float; 1.5%float]); ("M1 S2", [2.0%float; 2.5%float])])
              eq_refl eq_refl eq_refl eq_refl) as [_ [_ Hsame]].
  destruct Hsame as [r [g [Hr [Hg [Hcols [Hidx Hcell]]]]]]; [tauto|].
  exists r, g. split; [exact Hr|]. split; [exact Hg|].
  rewrite Hcell.
  - reflexivity.
  - apply Hidx. left. simpl. auto.
  - apply Hcols. simpl. auto.
Defined.

(** Years are matched by label: the second operand has its columns in the
    other order. *)
Lemma vector_arith_permuted_columns :
  exists r,
    __sub__ Example.YEARS Example.get_interp Example.py_float
      Example.energy
      (Variable_ (mkVar Example.dataset Example.universe Example.vetted None
                    (YList ["2030"; "2020"])
                    (VFrame (mkFrame ["2030"; "2020"]
                       [("M1 S1", [10%float; 20%float]); ("M1 S2", [30%float; 40%float])]))
                    None))
    = inr r /\
    _values r = VFrame (mkFrame ["2020"; "2030"]
                  [("M1 S1", [(-19)%float; (-8.5)%float]);
                   ("M1 S2", [(-38)%float; (-27.5)%float])]).
Proof. eexists. split; reflexivity. Qed.

(** Different year sets raise. *)
Lemma vector_arith_incompatible_years :
  __add__ Example.YEARS Example.get_interp Example.py_float
    Example.energy
    (Variable_ (mkVar Example.dataset Example.universe Example.vetted None
                  (YList ["2020"; "2040"])
                  (VFrame (mkFrame ["2020"; "2040"] [("M1 S1", [1%float; 2%float])]))
                  None))
  = inl (IncompatibleYears ["2020"; "2030"] ["2020"; "2040"]).
Proof. reflexivity. Qed.

Lemma vector_scalar_broadcast_witness :
  exists r g,
    __add__ Example.YEARS Example.get_interp Example.py_float
      Example.energy (Variable_ Example.other2030) = inr r /\
    _year r = YList ["2020"; "2030"] /\ _values r = VFrame g /\
    frame_cell g "M1 S1" "2030" = 8.5%float.
Proof.
  destruct (vector_scalar_broadcast Example.YEARS Example.get_interp Example.py_float Add
              Example.energy Example.other2030
              (mkFrame ["2020"; "2030"]
                 [("M1 S1", [1.0%float; 1.5%float]); ("M1 S2", [2.0%float; 2.5%float])])
              (mkSeries (Some "2030") [("M1 S1", 7%float)]) "2030"
              eq_refl eq_refl) as [[r [g [Hr [Hy [Hg [_ [Hidx [_ Hcell]]]]]]]] _];
    try reflexivity.
  - repeat constructor; simpl; intuition discriminate.
  - exists r, g. split; [exact Hr|]. split; [exact Hy|]. split; [exact Hg|].
    rewrite Hcell.
    + reflexivity.
    + apply Hidx. simpl. auto.
    + simpl. auto.
Defined.

(** C4 as stated fails when the left operand has a default: "M1 S1" is 1.0 in
    2020 in the vector operand and missing in the scalar operand, the sum is
    missing, and the result holds the default 0.0 in that cell. *)
Lemma broadcast_result_filled :
  exists r g,
    __add__ Example.YEARS Example.get_interp Example.py_float
      Example.energy0 (Variable_ Example.other2020) = inr r /\
    _values r = VFrame g /\
    frame_cell g "M1 S1" "2020" = 0%float /\
    eval_op Add (frame_cell (mkFrame ["2020"; "2030"]
                               [("M1 S1", [1.0%float; 1.5%float]);
                                ("M1 S2", [2.0%float; 2.5%float])]) "M1 S1" "2020")
                (series_cell (mkSeries (Some "2020") [("M1 S1", nan)]) "M1 S1") = nan /\
    frame_cell g "M1 S1" "2020"
    <> eval_op Add (frame_cell (mkFrame ["2020"; "2030"]
                                  [("M1 S1", [1.0%float; 1.5%float]);
                                   ("M1 S2", [2.0%float; 2.5%float])]) "M1 S1" "2020")
                   (series_cell (mkSeries (Some "2020") [("M1 S1", nan)]) "M1 S1").
Proof.
  eexists _, _. split; [reflexivity|]. split; [reflexivity|].
  split; [reflexivity|]. split; [reflexivity|].
  intros H. apply (f_equal is_nan) in H. vm_compute in H. discriminate.
Qed.

Lemma arith_unmatched_scenario_witness :
  exists r row,
    __add__ Example.YEARS Example.get_interp Example.py_float
      Example.energy (Variable_ Example.other2030) = inr r /\
    values_row (_values r) "M1 S2" = Some row /\
    Forall (fun c => c = nan) row.
Proof.
  destruct (arith_unmatched_scenario Example.YEARS Example.get_interp Example.py_float Add
              Example.energy Example.other2030 eq_refl eq_refl I I) as [_ Hrow].
  destruct (Hrow _ "M1 S2" eq_refl) as [row [Hr Hall]].
  - left. simpl. split; [auto|]. intros [H|[]]. discriminate.
  - eexists _, row. split; [reflexivity|]. split; [exact Hr | exact Hall].
Defined.

(** C5 as stated fails when the left operand has a default: "M1 S2" is a
    scenario of the left operand alone, and its row in the result holds the
    default 0.0, not missing values. *)
Lemma unmatched_row_filled :
  exists r,
    __add__ Example.YEARS Example.get_interp Example.py_float
      Example.energy0 (Variable_ Example.other2030) = inr r /\
    In "M1 S2" (values_index (_values Example.energy0)) /\
    ~ In "M1 S2" (values_index (_values Example.other2030)) /\
    values_row (_values r) "M1 S2" = Some [0%float; 0%float] /\
    has_missing (_values r) = false.
Proof.
  eexists. split; [reflexivity|]. split; [simpl; auto|]. split.
  - simpl. intros [H|[]]. discriminate.
  - split; reflexivity.
Qed.

(** ** [DataVar] *)

(** The factory builds what the constructor builds. *)
Lemma DataVar_call (YEARS : list string)
    (get_interp : Dataset -> string -> cell -> list (string * cell))
    (py_float : string -> option cell) (self : DataVar) (variable : option string)
    (year : option Arg) (values : option Values) (dflt : option cell) :
  __call__ YEARS get_interp py_float self variable year values dflt
  = __init__ YEARS get_interp py_float (dv_data self) (dv_scenarios self)
      (dv_vetted_scenarios self) variable year values dflt.
Proof. reflexivity. Qed.

Lemma init_rejects_ambiguous_witness :
  (exists msg,
     Example.new_var None None None None
     = (back_references, inl (AmbiguousConstruction msg))) /\
  (exists msg,
     Example.new_var (Some "Other") None
       (Some (VSeries (mkSeries (Some "2020") [("M1 S1", nan)]))) None
     = (back_references, inl (AmbiguousConstruction msg))).
Proof.
  split.
  - exact (init_rejects_ambiguous Example.YEARS Example.get_interp Example.py_float
             Example.dataset Example.universe Example.vetted None None None None).
  - exact (init_rejects_ambiguous Example.YEARS Example.get_interp Example.py_float
             Example.dataset Example.universe Example.vetted (Some "Other") None
             (Some (VSeries (mkSeries (Some "2020") [("M1 S1", nan)]))) None).
Defined.

(** * Further properties of the code *)

(** ** [select]: errors, shape and order of the result *)

Lemma for_each_first_invalid (allowed : list string) (mk : string -> Error)
    (pre post : list string) (c : string) :
  (forall x, In x pre -> In x allowed) -> ~ In c allowed ->
  for_each (fun c => if mem c allowed then ok tt else raise (mk c)) (pre ++ c :: post)
  = inl (mk c).
Proof.
  intros Hpre Hc. induction pre as [|x pre IH]; simpl.
  - apply mem_false in Hc. now rewrite Hc.
  - assert (Hx : mem x allowed = true) by (apply mem_In, Hpre; now left).
    rewrite Hx. simpl. apply IH. intros y Hy. apply Hpre. now right.
Qed.

Lemma key_leb_total (a b : list (option string)) :
  key_leb a b = false -> key_leb b a = true.
Proof.
  revert b. induction a as [|x a IH]; intros [|y b]; simpl; try discriminate.
  destruct x as [x|], y as [y|]; simpl; try discriminate; try reflexivity.
  - rewrite (String.eqb_sym y x). destruct (String.eqb x y); [apply IH|].
    intros H. destruct (String.leb_total x y) as [H'|H']; congruence.
  - apply IH.
Qed.

Lemma insert_row_sorted (r : SelRow) (l : list SelRow) :
  Sorted key_ordered l -> Sorted key_ordered (insert_row r l).
Proof.
  induction 1 as [|r' t Ht IH Hhd]; simpl.
  - repeat constructor.
  - destruct (key_leb (sel_key r) (sel_key r')) eqn:E.
    + constructor; [now constructor | now constructor].
    + constructor; [exact IH|].
      destruct t as [|r'' t]; simpl.
      * constructor. now apply key_leb_total.
      * destruct (key_leb (sel_key r) (sel_key r'')).
        -- constructor. now apply key_leb_total.
        -- constructor. now inversion Hhd.
Qed.

Lemma sort_values_sorted (l : list SelRow) : Sorted key_ordered (sort_values l).
Proof.
  induction l as [|r l IH]; simpl; [constructor | now apply insert_row_sorted].
Qed.

Lemma sorted_map_same_key (g : SelRow -> SelRow) (l : list SelRow) :
  (forall r, sel_key (g r) = sel_key r) ->
  Sorted key_ordered l -> Sorted key_ordered (map g l).
Proof.
  intros Hg. induction 1 as [|r t Ht IH Hhd]; simpl; constructor; [exact IH|].
  destruct Hhd as [|r' t' Hr]; simpl; constructor.
  unfold key_ordered in *. now rewrite !Hg.
Qed.

(** With no key nothing moves. *)
Lemma sort_values_no_key (l : list SelRow) :
  (forall r, In r l -> sel_key r = []) -> sort_values l = l.
Proof.
  induction l as [|r l IH]; simpl; intros H; [reflexivity|].
  rewrite IH by (intros x Hx; apply H; now right).
  destruct l as [|r' l']; simpl; [reflexivity|].
  now rewrite (H r (or_introl eq_refl)).
Qed.

Lemma filter_none {A} (p : A -> bool) (l : list A) :
  (forall x, p x = false) -> filter p l = [].
Proof.
  intros H. induction l as [|x l IH]; simpl; [reflexivity|]. now rewrite H.
Qed.

Lemma filter_none_in {A} (p : A -> bool) (l : list A) :
  (forall x, In x l -> p x = false) -> filter p l = [].
Proof.
  induction l as [|x l IH]; simpl; intros H; [reflexivity|].
  rewrite (H x (or_introl eq_refl)). apply IH. intros y Hy. apply H. now right.
Qed.

Section SelectionMore.

Variable IP_SCENARIOS : list (string * Marker).
Variable SSP_SCENARIOS : list (string * Marker).

Lemma filter_category_ok (category : option Arg) (st : Filter) :
  valid_categories category ->
  filter_category category st
  = inr (match category with
         | None => st
         | Some a => (filter (fun r => isin (Category (snd r)) (requested_categories a)) (fst st),
                      snd st ++ ["Category"])
         end).
Proof.
  destruct category as [a|]; [|reflexivity]. intros H. unfold filter_category.
  change (_to_list (if is_all a then Many all_categories else a) false)
    with (requested_categories a).
  now rewrite (proj2 (for_each_valid all_categories InvalidFilterValue _) H).
Qed.

Lemma filter_ip_ok (ip : option Arg) (st : Filter) :
  valid_markers IP_SCENARIOS ip ->
  exists st', filter_ip IP_SCENARIOS ip st = inr st' /\
              incl (fst st') (fst st) /\ snd st' = snd st ++ active "IP" ip.
Proof.
  destruct ip as [a|].
  - intros H. unfold filter_ip.
    change (_to_list (if is_all a then Many (keys IP_SCENARIOS) else a) false)
      with (requested IP_SCENARIOS a).
    rewrite (proj2 (for_each_valid (keys IP_SCENARIOS) InvalidFilterValue _) H). cbn [bind].
    destruct (map_result_canonical_ok IP_SCENARIOS _ H) as [w Hw]. rewrite Hw. cbn [bind].
    eexists. split; [reflexivity|]. cbn [fst snd active]. split; [|reflexivity].
    intros r Hr. now apply filter_In in Hr as [Hr _].
  - intros _. exists st. split; [reflexivity|]. split; [apply incl_refl|].
    now rewrite app_nil_r.
Qed.

(** A category that is none of C1..C8 makes [select] raise the invalid-value
    error for the first such category, whatever the other arguments are. *)
Theorem select_invalid_category (self : Var) (a : Arg) (ip ssp : option Arg)
    (curpol ndc : option unit) (vetted : bool) (pre post : list string) (c : string) :
  requested_categories a = pre ++ c :: post ->
  (forall x, In x pre -> In x all_categories) ->
  ~ In c all_categories ->
  select IP_SCENARIOS SSP_SCENARIOS self (Some a) ip ssp curpol ndc vetted
  = inl (InvalidFilterValue c).
Proof.
  intros Hreq Hpre Hc. unfold select, apply_filters, filter_category.
  change (_to_list (if is_all a then Many all_categories else a) false)
    with (requested_categories a). rewrite Hreq.
  now rewrite (for_each_first_invalid all_categories InvalidFilterValue pre post c Hpre Hc).
Qed.

(** With a valid category argument, an ip name that is no key of
    [IP_SCENARIOS] makes [select] raise the invalid-value error for the first
    such name, whatever ssp, curpol and ndc are. *)
Theorem select_invalid_ip (self : Var) (category : option Arg) (a : Arg) (ssp : option Arg)
    (curpol ndc : option unit) (vetted : bool) (pre post : list string) (v : string) :
  valid_categories category ->
  requested IP_SCENARIOS a = pre ++ v :: post ->
  (forall x, In x pre -> In x (keys IP_SCENARIOS)) ->
  ~ In v (keys IP_SCENARIOS) ->
  select IP_SCENARIOS SSP_SCENARIOS self category (Some a) ssp curpol ndc vetted
  = inl (InvalidFilterValue v).
Proof.
  intros Hcat Hreq Hpre Hv. unfold select, apply_filters.
  rewrite (filter_category_ok category _ Hcat). cbn [bind]. unfold filter_ip.
  change (_to_list (if is_all a then Many (keys IP_SCENARIOS) else a) false)
    with (requested IP_SCENARIOS a). rewrite Hreq.
  now rewrite (for_each_first_invalid (keys IP_SCENARIOS) InvalidFilterValue pre post v Hpre Hv).
Qed.

(** With valid category and ip arguments, an ssp name that is no key of
    [SSP_SCENARIOS] makes [select] raise the invalid-value error for the first
    such name, whatever curpol and ndc are. *)
Theorem select_invalid_ssp (self : Var) (category ip : option Arg) (a : Arg)
    (curpol ndc : option unit) (vetted : bool) (pre post : list string) (v : string) :
  valid_categories category ->
  valid_markers IP_SCENARIOS ip ->
  requested SSP_SCENARIOS a = pre ++ v :: post ->
  (forall x, In x pre -> In x (keys SSP_SCENARIOS)) ->
  ~ In v (keys SSP_SCENARIOS) ->
  select IP_SCENARIOS SSP_SCENARIOS self category ip (Some a) curpol ndc vetted
  = inl (InvalidFilterValue v).
Proof.
  intros Hcat Hip Hreq Hpre Hv. unfold select, apply_filters.
  rewrite (filter_category_ok category _ Hcat). cbn [bind].
  match goal with
  | |- context [filter_ip IP_SCENARIOS ip ?s] =>
      destruct (filter_ip_ok ip s Hip) as [st [Hst _]]
  end.
  rewrite Hst. cbn [bind]. unfold filter_ssp.
  change (_to_list (if is_all a then Many (keys SSP_SCENARIOS) else a) false)
    with (requested SSP_SCENARIOS a). rewrite Hreq.
  now rewrite (for_each_first_invalid (keys SSP_SCENARIOS) InvalidFilterValue pre post v Hpre Hv).
Qed.

(** [select] never returns a table when curpol or ndc is given; when the
    three filters pass it raises the not-implemented error, for curpol first. *)
Theorem select_not_implemented (self : Var) (category ip ssp : option Arg)
    (curpol ndc : option unit) (vetted : bool) :
  (forall r, select IP_SCENARIOS SSP_SCENARIOS self category ip ssp curpol ndc vetted = inr r ->
             curpol = None /\ ndc = None) /\
  (forall st, apply_filters IP_SCENARIOS SSP_SCENARIOS self category ip ssp vetted = inr st ->
     (curpol <> None ->
      select IP_SCENARIOS SSP_SCENARIOS self category ip ssp curpol ndc vetted
      = inl (NotImplementedFilter "CurPol")) /\
     (curpol = None -> ndc <> None ->
      select IP_SCENARIOS SSP_SCENARIOS self category ip ssp curpol ndc vetted
      = inl (NotImplementedFilter "NDC"))).
Proof.
  split.
  - intros r H. destruct (select_names _ _ _ _ _ _ _ _ _ _ H) as [st [_ [Hc [Hn _]]]]. auto.
  - intros st Hst. unfold select. rewrite Hst. cbn [bind]. split.
    + destruct curpol; [reflexivity | congruence].
    + intros -> Hn. destruct ndc; [reflexivity | congruence].
Qed.

(** The filters applied to a selection: the columns they activate. *)
Lemma apply_filters_columns (self : Var) (category ip ssp : option Arg) (vetted : bool)
    (st : Filter) :
  apply_filters IP_SCENARIOS SSP_SCENARIOS self category ip ssp vetted = inr st ->
  snd st = active "Category" category ++ active "IP" ip ++ active "SSP" ssp.
Proof.
  unfold apply_filters. intros H. unbind H as c Hc. unbind H as i Hi.
  apply filter_category_inv in Hc. apply filter_ip_inv in Hi. apply filter_ssp_inv in H.
  assert (Hc' : snd c = active "Category" category).
  { destruct category; [now destruct Hc as [_ [_ ->]] | now subst]. }
  assert (Hi' : snd i = snd c ++ active "IP" ip).
  { destruct ip; [now destruct Hi as [w [_ [_ ->]]] | subst; now rewrite app_nil_r]. }
  destruct ssp.
  - destruct H as [_ [_ ->]]. rewrite Hi', Hc'. now rewrite <- app_assoc.
  - subst. rewrite Hi', Hc'. simpl. now rewrite app_nil_r.
Qed.

(** The table returned is indexed by the metadata columns of the filters
    given, in the order category, ip, ssp, and then by the scenario identity;
    every row has one key per such column. *)
Theorem select_index_names (self : Var) (category ip ssp : option Arg)
    (curpol ndc : option unit) (vetted : bool) (r : Selected) :
  select IP_SCENARIOS SSP_SCENARIOS self category ip ssp curpol ndc vetted = inr r ->
  sel_index_names r
  = active "Category" category ++ active "IP" ip ++ active "SSP" ssp ++ ["Name"] /\
  forall row, In row (sel_rows r) ->
    List.length (sel_key row) + 1 = List.length (sel_index_names r).
Proof.
  intros H. destruct (select_names _ _ _ _ _ _ _ _ _ _ H) as [st [Hst _]].
  pose proof (apply_filters_columns _ _ _ _ _ _ Hst) as Hcols.
  assert (Hidx : sel_index_names r = snd st ++ ["Name"]).
  { unfold select in H. rewrite Hst in H. cbn [bind] in H.
    unbind H as u1 Hu1. unbind H as u2 Hu2.
    destruct (_values self); simpl in H; injection H as <-; reflexivity. }
  split; [rewrite Hidx, Hcols; now rewrite <- !app_assoc|].
  intros row Hrow.
  destruct (select_rows _ _ _ _ _ _ _ _ _ _ _ H Hst row Hrow) as [m [_ Hkey]].
  rewrite Hidx, Hkey, List.length_app, List.length_map. reflexivity.
Qed.

(** The rows returned are in ascending order of their keys, compared column
    by column, a missing value coming last. *)
Theorem select_sorted (self : Var) (category ip ssp : option Arg)
    (curpol ndc : option unit) (vetted : bool) (r : Selected) :
  select IP_SCENARIOS SSP_SCENARIOS self category ip ssp curpol ndc vetted = inr r ->
  Sorted key_ordered (sel_rows r).
Proof.
  unfold select. intros H. unbind H as st Hst. unbind H as u1 Hu1. unbind H as u2 Hu2.
  destruct (_values self); simpl in H; injection H as <-; simpl.
  - apply sort_values_sorted.
  - apply sorted_map_same_key; [reflexivity | apply sort_values_sorted].
Qed.

(** [select] shows the values of the variable as they are: a row returned has
    the cells of a row of the table under the same scenario. *)
Theorem select_rows_from_table (self : Var) (category ip ssp : option Arg)
    (curpol ndc : option unit) (vetted : bool) (r : Selected) :
  select IP_SCENARIOS SSP_SCENARIOS self category ip ssp curpol ndc vetted = inr r ->
  forall row, In row (sel_rows r) ->
    match _values self with
    | VFrame f => In (sel_name row, sel_cells row) (rows f)
    | VSeries s => exists c, sel_cells row = [c] /\ In (sel_name row, c) (items s)
    end.
Proof.
  unfold select. intros H. unbind H as st Hst. unbind H as u1 Hu1. unbind H as u2 Hu2.
  destruct (_values self) as [f|s]; simpl in H; injection H as <-; simpl; intros row Hrow.
  - apply In_sort_values, In_merge_left in Hrow as [Hrow _]. simpl in Hrow.
    now apply filter_In in Hrow as [Hrow _].
  - apply in_map_iff in Hrow as [row' [<- Hrow']]. simpl.
    apply In_sort_values, In_merge_left in Hrow' as [Hrow' _]. simpl in Hrow'.
    apply in_map_iff in Hrow' as [[n c] [[= Hn Hc] Hin]].
    apply filter_In in Hin as [Hin _]. exists c. rewrite <- Hc, <- Hn. split; [reflexivity|].
    exact Hin.
Qed.

(** An empty list of ssp names gives a table without rows; so does an empty
    list of categories or of ip names when no ssp filter is given. *)
Theorem select_empty_list (self : Var) (category ip ssp : option Arg)
    (curpol ndc : option unit) (vetted : bool) (r : Selected) :
  select IP_SCENARIOS SSP_SCENARIOS self category ip ssp curpol ndc vetted = inr r ->
  ssp = Some (Many []) \/
  (ssp = None /\ (category = Some (Many []) \/ ip = Some (Many []))) ->
  sel_rows r = [].
Proof.
  intros H Hempty.
  destruct (select_names _ _ _ _ _ _ _ _ _ _ H) as [st [Hst [_ [_ Hnames]]]].
  assert (Hkeys : keys (fst st) = []).
  { unfold apply_filters in Hst. unbind Hst as c Hc. unbind Hst as i Hi.
    destruct Hempty as [->|[-> Hci]].
    - simpl in Hst. injection Hst as <-. simpl. now rewrite filter_none.
    - simpl in Hst. injection Hst as <-.
      pose proof (filter_ip_incl _ _ _ _ Hi) as Hincl.
      destruct Hci as [->| ->].
      + simpl in Hc. injection Hc as <-. simpl in Hincl.
        rewrite filter_none in Hincl by (intros x; now destruct (Category (snd x))).
        destruct (fst i) as [|x l]; [reflexivity|].
        destruct (Hincl x (or_introl eq_refl)).
      + simpl in Hi. injection Hi as <-. simpl. now rewrite filter_none. }
  assert (Hn : sel_names r = []).
  { destruct (sel_names r) as [|n l] eqn:E; [reflexivity|].
    destruct (proj1 (Hnames n) (or_introl eq_refl)) as [_ Hin]. rewrite Hkeys in Hin.
    destruct Hin. }
  unfold sel_names in Hn. now apply map_eq_nil in Hn.
Qed.

Lemma filter_unique_key (u : Universe) (n : string) :
  NoDup (keys u) -> In n (keys u) ->
  exists m, filter (fun r => String.eqb (fst r) n) u = [m].
Proof.
  induction u as [|[k m] u IH]; simpl; intros Hnd Hin; [contradiction|].
  inversion Hnd as [|k' l' Hk Hnd']; subst.
  destruct (String.eqb_spec k n) as [->|N].
  - exists (n, m). f_equal. apply filter_none_in. intros x Hx.
    destruct (String.eqb_spec (fst x) n) as [E|E]; [|reflexivity].
    exfalso. apply Hk. rewrite <- E. now apply in_map.
  - destruct Hin as [E|Hin]; [contradiction|]. now apply IH.
Qed.

Lemma merge_left_no_key (f : Frame) (u : Universe) :
  NoDup (keys u) -> (forall r, In r (rows f) -> In (fst r) (keys u)) ->
  merge_left f u [] = map (fun x => mkSelRow [] (fst x) (snd x)) (rows f).
Proof.
  intros Hnd. unfold merge_left. induction (rows f) as [|r l IH]; simpl; intros Hin;
    [reflexivity|].
  destruct (filter_unique_key u (fst r) Hnd (Hin r (or_introl eq_refl))) as [m Hm].
  rewrite Hm. simpl. f_equal. apply IH. intros x Hx. apply Hin. now right.
Qed.

(** Without any filter, and with one universe row per scenario, [select]
    returns the rows of the table whose scenario is in the universe the
    [vetted] flag picks: all of them, once each, in the order of the table,
    indexed by the scenario identity alone. *)
Theorem select_no_filter (self : Var) (vetted : bool) :
  let universe := if vetted then vetted_scenarios self else scenarios self in
  NoDup (keys universe) ->
  select IP_SCENARIOS SSP_SCENARIOS self None None None None None vetted
  = inr (match _values self with
         | VFrame f =>
             SelFrame ["Name"] (columns f)
               (map (fun x => mkSelRow [] (fst x) (snd x))
                    (filter (fun x => mem (fst x) (keys universe)) (rows f)))
         | VSeries s =>
             SelSeries "value" ["Name"]
               (map (fun x => mkSelRow [] (fst x) [snd x])
                    (filter (fun x => mem (fst x) (keys universe)) (items s)))
         end).
Proof.
  intros universe Hnd. unfold select, apply_filters. cbn [filter_category filter_ip
    filter_ssp bind ok not_implemented fst snd app]. fold universe.
  assert (Hmerge : forall f, (forall r, In r (rows f) -> In (fst r) (keys universe)) ->
            sort_values (merge_left f universe [])
            = map (fun x => mkSelRow [] (fst x) (snd x)) (rows f)).
  { intros f Hf. rewrite (merge_left_no_key f universe Hnd Hf).
    apply sort_values_no_key. intros r Hr. now apply in_map_iff in Hr as [x [<- _]]. }
  destruct (_values self) as [f|s]; cbn [subset_frame columns].
  - rewrite Hmerge; [reflexivity|]. cbn [rows]. intros r Hr.
    apply filter_In in Hr as [_ Hr]. now apply mem_In.
  - rewrite Hmerge.
    + cbn [rows]. rewrite !map_map. reflexivity.
    + cbn [rows]. intros r Hr. apply in_map_iff in Hr as [x [<- Hx]].
      apply filter_In in Hx as [_ Hx]. now apply mem_In.
Qed.

End SelectionMore.

Lemma select_invalid_category_witness :
  select Example.IP_SCENARIOS Example.SSP_SCENARIOS Example.energy
    (Some (Many ["C1"; "C99"; "C2"])) (Some (One "no such ip")) None (Some tt) None true
  = inl (InvalidFilterValue "C99").
Proof.
  apply (select_invalid_category Example.IP_SCENARIOS Example.SSP_SCENARIOS Example.energy
           (Many ["C1"; "C99"; "C2"]) (Some (One "no such ip")) None (Some tt) None true
           ["C1"] ["C2"] "C99").
  - reflexivity.
  - intros x [<-|[]]. simpl. auto.
  - simpl. intuition discriminate.
Defined.

Lemma select_invalid_ip_witness :
  select Example.IP_SCENARIOS Example.SSP_SCENARIOS Example.energy
    (Some (One "all")) (Some (Many ["GS"; "Neg"])) (Some (One "no such ssp")) None None false
  = inl (InvalidFilterValue "Neg").
Proof.
  apply (select_invalid_ip Example.IP_SCENARIOS Example.SSP_SCENARIOS Example.energy
           (Some (One "all")) (Many ["GS"; "Neg"]) (Some (One "no such ssp")) None None false
           ["GS"] [] "Neg").
  - simpl. auto.
  - reflexivity.
  - intros x [<-|[]]. simpl. auto.
  - simpl. intuition discriminate.
Defined.

Lemma select_invalid_ssp_witness :
  select Example.IP_SCENARIOS Example.SSP_SCENARIOS Example.energy
    None (Some (One "GS")) (Some (One "SSP5-85")) (Some tt) (Some tt) true
  = inl (InvalidFilterValue "SSP5-85").
Proof.
  apply (select_invalid_ssp Example.IP_SCENARIOS Example.SSP_SCENARIOS Example.energy
           None (Some (One "GS")) (One "SSP5-85") (Some tt) (Some tt) true [] [] "SSP5-85").
  - exact I.
  - intros v [<-|[]]. simpl. auto.
  - reflexivity.
  - intros x [].
  - simpl. intuition discriminate.
Defined.

Lemma select_not_implemented_witness :
  select Example.IP_SCENARIOS Example.SSP_SCENARIOS Example.energy
    (Some (One "C1")) None None (Some tt) (Some tt) true
  = inl (NotImplementedFilter "CurPol") /\
  select Example.IP_SCENARIOS Example.SSP_SCENARIOS Example.energy
    (Some (One "C1")) None None None (Some tt) true
  = inl (NotImplementedFilter "NDC").
Proof.
  split.
  - apply (proj2 (select_not_implemented Example.IP_SCENARIOS Example.SSP_SCENARIOS
                    Example.energy (Some (One "C1")) None None (Some tt) (Some tt) true)
             _ eq_refl).
    discriminate.
  - apply (proj2 (select_not_implemented Example.IP_SCENARIOS Example.SSP_SCENARIOS
                    Example.energy (Some (One "C1")) None None None (Some tt) true)
             _ eq_refl); [reflexivity | discriminate].
Defined.

Lemma select_index_names_witness :
  exists r,
    select Example.IP_SCENARIOS Example.SSP_SCENARIOS Example.energy
      (Some (One "all")) None (Some (One "SSP1-19")) None None false = inr r /\
    sel_index_names r = ["Category"; "SSP"; "Name"].
Proof.
  eexists. split; [reflexivity|].
  apply (select_index_names Example.IP_SCENARIOS Example.SSP_SCENARIOS Example.energy
           (Some (One "all")) None (Some (One "SSP1-19")) None None false).
  reflexivity.
Defined.

Lemma select_sorted_witness :
  Sorted key_ordered
    [mkSelRow [Some "C1"] "M1 S1" [1.0%float; 1.5%float];
     mkSelRow [Some "C3"] "M1 S2" [2.0%float; 2.5%float]].
Proof.
  apply (select_sorted Example.IP_SCENARIOS Example.SSP_SCENARIOS Example.energy
           (Some (One "all")) None None None None false
           (SelFrame ["Category"; "Name"] ["2020"; "2030"]
              [mkSelRow [Some "C1"] "M1 S1" [1.0%float; 1.5%float];
               mkSelRow [Some "C3"] "M1 S2" [2.0%float; 2.5%float]])).
  reflexivity.
Defined.

Lemma select_rows_from_table_witness :
  In ("M1 S2", [2.0%float; 2.5%float])
     [("M1 S1", [1.0%float; 1.5%float]); ("M1 S2", [2.0%float; 2.5%float])].
Proof.
  apply (select_rows_from_table Example.IP_SCENARIOS Example.SSP_SCENARIOS Example.energy
           (Some (One "all")) None None None None false
           (SelFrame ["Category"; "Name"] ["2020"; "2030"]
              [mkSelRow [Some "C1"] "M1 S1" [1.0%float; 1.5%float];
               mkSelRow [Some "C3"] "M1 S2" [2.0%float; 2.5%float]])
           eq_refl
           (mkSelRow [Some "C3"] "M1 S2" [2.0%float; 2.5%float])).
  simpl. auto.
Defined.

Lemma select_empty_list_witness :
  exists r,
    select Example.IP_SCENARIOS Example.SSP_SCENARIOS Example.energy
      (Some (Many [])) None None None None false = inr r /\
    sel_rows r = [].
Proof.
  eexists. split; [reflexivity|].
  apply (select_empty_list Example.IP_SCENARIOS Example.SSP_SCENARIOS Example.energy
           (Some (Many [])) None None None None false).
  - reflexivity.
  - right. auto.
Defined.

(** An empty category list does not empty the result when ssp names are
    given: the canonical scenario comes back. *)
Lemma select_empty_category_with_ssp :
  select Example.IP_SCENARIOS Example.SSP_SCENARIOS Example.energy
    (Some (Many [])) None (Some (One "SSP2-45")) None None true
  = inr (SelFrame ["Category"; "SSP"; "Name"] ["2020"; "2030"]
           [mkSelRow [Some "C1"; Some "SSP2-45"] "M1 S1" [1.0%float; 1.5%float]]).
Proof. reflexivity. Qed.

Lemma select_no_filter_witness :
  select Example.IP_SCENARIOS Example.SSP_SCENARIOS Example.energy
    None None None None None true
  = inr (SelFrame ["Name"] ["2020"; "2030"]
           [mkSelRow [] "M1 S1" [1.0%float; 1.5%float]]).
Proof.
  apply (select_no_filter Example.IP_SCENARIOS Example.SSP_SCENARIOS Example.energy true).
  simpl. repeat constructor. simpl. tauto.
Defined.

Lemma select_sound_without_ssp_witness :
  exists m,
    In ("M1 S1", m) Example.vetted /\
    isin (Category m) (requested_categories (One "all")) = true.
Proof.
  destruct (select_sound_without_ssp Example.IP_SCENARIOS Example.SSP_SCENARIOS
              Example.energy (Some (One "all")) None None None true
              (SelFrame ["Category"; "Name"] ["2020"; "2030"]
                 [mkSelRow [Some "C1"] "M1 S1" [1.0%float; 1.5%float]])
              eq_refl
              (mkSelRow [Some "C1"] "M1 S1" [1.0%float; 1.5%float]))
    as [m [Hm [Hcat _]]].
  - simpl. auto.
  - exists m. split; [exact Hm | now apply Hcat].
Defined.

Lemma select_ssp_rows_canonical_witness :
  canon_of Example.SSP_SCENARIOS (requested Example.SSP_SCENARIOS (One "SSP1-19")) "M1 S2".
Proof.
  apply (select_ssp_rows_canonical Example.IP_SCENARIOS Example.SSP_SCENARIOS
           Example.energy None None (One "SSP1-19") None None true
           (SelFrame ["SSP"; "Name"] ["2020"; "2030"]
              [mkSelRow [Some "SSP1-19"] "M1 S2" [2.0%float; 2.5%float]])
           eq_refl).
  simpl. auto.
Defined.

Lemma select_vetted_raises_alike_witness :
  exists r,
    select Example.IP_SCENARIOS Example.SSP_SCENARIOS Example.energy
      (Some (One "C3")) None None None None false = inr r.
Proof.
  apply (proj1 (select_vetted_raises_alike Example.IP_SCENARIOS Example.SSP_SCENARIOS
                  Example.energy (Some (One "C3")) None None None None
                  (fun r H => match H with
                              | or_introl E => or_introl E
                              | or_intror F => match F with end
                              end))).
  eexists. reflexivity.
Defined.

(** ** The constructor: modes, failures and what it keeps *)

Lemma series_cell_map_items (g : string -> cell -> cell) (l : list (string * cell))
    (nm nm' : option string) (n : string) :
  In n (map fst l) ->
  series_cell (mkSeries nm (map (fun r => (fst r, g (fst r) (snd r))) l)) n
  = g n (series_cell (mkSeries nm' l) n).
Proof.
  intros Hn. unfold series_cell. simpl. rewrite assoc_map_snd.
  apply assoc_Some_iff in Hn as [c Hc]. now rewrite Hc.
Qed.

Section ConstructionMore.

Variable YEARS : list string.
Variable get_interp : Dataset -> string -> cell -> list (string * cell).
Variable py_float : string -> option cell.

Lemma interpolate_years_fails (data : Dataset) (variable : string) (ys : list string)
    (f : Frame) :
  (exists y, In y ys /\ py_float y = None) ->
  exists y, In y ys /\ py_float y = None /\
            snd (interpolate_years get_interp py_float data variable ys f)
            = inl (ValueError y).
Proof.
  revert f. induction ys as [|y0 ys IH]; intros f [y [Hy Hn]]; [destruct Hy|].
  simpl. destruct (py_float y0) as [x0|] eqn:E0.
  - destruct Hy as [->|Hy]; [congruence|].
    destruct (IH (frame_setitem f y0 (get_interp data variable x0))
                 (ex_intro _ y (conj Hy Hn))) as [y' [Hy' [Hn' He]]].
    exists y'. split; [now right|]. split; [assumption|]. simpl. exact He.
  - exists y0. split; [now left|]. split; [assumption | reflexivity].
Qed.

Lemma unknown_years_parse_or_not (l : list string) :
  (forall y, In y l -> ~ In y YEARS -> exists x, py_float y = Some x) \/
  (exists y, In y l /\ ~ In y YEARS /\ py_float y = None).
Proof.
  induction l as [|y0 l IH].
  - left. intros y [].
  - destruct IH as [IH|[y [Hy Hn]]].
    + destruct (mem y0 YEARS) eqn:Ek.
      * left. intros y [<-|Hy] Hn; [|now apply IH].
        exfalso. apply Hn. now apply mem_In.
      * destruct (py_float y0) as [x0|] eqn:E0.
        -- left. intros y [<-|Hy] Hn; [now exists x0 | now apply IH].
        -- right. exists y0. split; [now left|]. split; [now apply mem_false | assumption].
    + right. exists y. split; [now right | assumption].
Qed.

(** A requested year outside the known years that is no number makes the
    constructor raise ValueError for such a token. *)
Lemma init_from_variable_fails (data : Dataset) (sc vsc : Universe) (variable : string)
    (year : option Arg) (dflt : option cell) :
  let requested_years := _to_list (match year with None => Many YEARS | Some y => y end) true in
  (exists y, In y requested_years /\ ~ In y YEARS /\ py_float y = None) ->
  exists y, In y requested_years /\ ~ In y YEARS /\ py_float y = None /\
            snd (__init__ YEARS get_interp py_float data sc vsc (Some variable) year None dflt)
            = inl (ValueError y).
Proof.
  intros ys [y [Hy [Hk Hn]]]. unfold __init__. cbv zeta.
  change (_to_list (match year with None => Many YEARS | Some y => y end) true) with ys.
  set (existing := dedup (filter (fun y => mem y YEARS) ys)).
  set (interp := dedup (filter (fun y => negb (mem y YEARS)) ys)).
  set (f0 := mkFrame existing
               (map (fun r => (fst r, map (row_cell YEARS (snd r)) existing))
                    (rows (variable_frame YEARS data variable)))).
  assert (Hf0 : frame_getitem_list (variable_frame YEARS data variable) existing = inr f0).
  { apply frame_getitem_list_ok. intros z Hz. now apply existing_years_known in Hz. }
  destruct (interpolate_years_fails data variable interp f0) as [y' [Hy' [Hn' He]]].
  { exists y. split; [|assumption]. apply interp_years_unknown. now split. }
  apply interp_years_unknown in Hy' as [Hy' Hk'].
  exists y'. repeat (split; [assumption|]).
  rewrite Hf0. simpl.
  destruct (interpolate_years get_interp py_float data variable interp f0) as [t [e|f1]];
    simpl in He; [|discriminate].
  injection He as ->. reflexivity.
Qed.

(** From a variable name the constructor returns a variable exactly when every
    requested year outside the known years is a number; otherwise it raises
    ValueError for a requested token that is neither a known year nor a
    number. *)
Theorem init_year_not_a_number (data : Dataset) (sc vsc : Universe) (variable : string)
    (year : option Arg) (dflt : option cell) :
  let requested_years := _to_list (match year with None => Many YEARS | Some y => y end) true in
  ((exists v, snd (__init__ YEARS get_interp py_float data sc vsc (Some variable) year None dflt)
              = inr v)
   <-> (forall y, In y requested_years -> ~ In y YEARS -> exists x, py_float y = Some x)) /\
  (forall e, snd (__init__ YEARS get_interp py_float data sc vsc (Some variable) year None dflt)
             = inl e ->
             exists y, In y requested_years /\ ~ In y YEARS /\ py_float y = None /\
                       e = ValueError y).
Proof.
  intros ys. split; [split|].
  - intros [v Hv]. destruct (unknown_years_parse_or_not ys) as [H|H]; [exact H|].
    destruct (init_from_variable_fails data sc vsc variable year dflt H) as [y [_ [_ [_ He]]]].
    congruence.
  - intros H. destruct (init_from_variable YEARS get_interp py_float data sc vsc variable
                          year dflt H) as [t [t' [f [v0 [Hi _]]]]].
    rewrite Hi. now eexists.
  - intros e He. destruct (unknown_years_parse_or_not ys) as [H|H].
    + destruct (init_from_variable YEARS get_interp py_float data sc vsc variable
                  year dflt H) as [t [t' [f [v0 [Hi _]]]]].
      rewrite Hi in He. discriminate.
    + destruct (init_from_variable_fails data sc vsc variable year dflt H)
        as [y [Hy [Hk [Hn He']]]].
      exists y. repeat (split; [assumption|]). congruence.
Qed.

(** Without a year the constructor never raises and never interpolates: the
    variable is in vector mode over the known years, with the dataset rows of
    the variable as they are, up to the default. *)
Theorem init_all_known_years (data : Dataset) (sc vsc : Universe) (variable : string)
    (dflt : option cell) :
  exists tr v g,
    __init__ YEARS get_interp py_float data sc vsc (Some variable) None None dflt
    = (tr, inr v) /\
    _year v = YList YEARS /\ _values v = VFrame g /\ columns g = YEARS /\
    index g = map d_Name (filter (fun r => String.eqb (d_Variable r) variable) data) /\
    (forall n y, In n (index g) -> In y YEARS ->
       frame_cell g n y
       = default_cell dflt (frame_cell (variable_frame YEARS data variable) n y)) /\
    (forall variable' x, ~ In (Interpolate variable' x) tr).
Proof.
  destruct (init_from_variable YEARS get_interp py_float data sc vsc variable None dflt)
    as [t [t' [f [v0 [Hinit [Ht [Ht' [Hidx [Hcell Hv0]]]]]]]]].
  { intros y Hy Hn. contradiction. }
  simpl in Hinit, Ht, Hcell, Hv0.
  set (fsel := mkFrame YEARS (map (fun r => (fst r, map (row_cell (columns f) (snd r)) YEARS))
                                  (rows f))) in *.
  assert (Hsel_idx : index fsel = index f) by apply index_map_rows.
  assert (Hrect : rectangular fsel) by apply rectangular_selected.
  set (g := match dflt with
            | Some d => mkFrame (columns fsel)
                          (map (fun r => (fst r, map (fill_cell d) (snd r))) (rows fsel))
            | None => fsel
            end).
  assert (Hg_idx : index g = index f).
  { unfold g. destruct dflt; [|assumption]. unfold index at 1. simpl.
    now rewrite index_map_rows. }
  eexists _, _, g. split; [exact Hinit|]. simpl.
  split; [reflexivity|]. split; [subst v0; unfold g; now destruct dflt|].
  split; [unfold g; now destruct dflt|]. split; [now rewrite Hg_idx|]. split.
  - intros n y Hn Hy. rewrite Hg_idx, <- Hsel_idx in Hn.
    assert (Hsel : frame_cell fsel n y = frame_cell (variable_frame YEARS data variable) n y).
    { unfold fsel. rewrite frame_cell_selected by assumption. rewrite (Hcell n y Hy).
      apply mem_In in Hy. now rewrite Hy. }
    unfold g. destruct dflt as [d|]; unfold default_cell.
    + rewrite (frame_cell_map_cells (fill_cell d) fsel n y Hrect Hn Hy). now rewrite Hsel.
    + exact Hsel.
  - intros variable' x Hin. unfold back_references in Hin. simpl in Hin.
    repeat (destruct Hin as [Hin|Hin]; [discriminate|]).
    apply in_app_iff in Hin as [Hin|Hin].
    + destruct (Ht _ Hin) as [y [x' [Hy [Hk _]]]]. contradiction.
    + destruct Hin as [Hin|[Hin|Hin]]; try discriminate.
      apply Ht' in Hin. discriminate.
Qed.

(** With a single year that is a known year or a number, the variable is in
    scalar mode: a series named by the year token, one value per dataset row of
    the variable, taken from the dataset for a known year and from the
    interpolation otherwise, up to the default. *)
Theorem init_scalar_year (data : Dataset) (sc vsc : Universe) (variable y : string)
    (dflt : option cell) :
  (In y YEARS \/ exists x, py_float y = Some x) ->
  exists tr v s,
    __init__ YEARS get_interp py_float data sc vsc (Some variable) (Some (One y)) None dflt
    = (tr, inr v) /\
    _year v = YSingle y /\ _values v = VSeries s /\ sname s = Some y /\
    sindex s = map d_Name (filter (fun r => String.eqb (d_Variable r) variable) data) /\
    (forall n, In n (sindex s) ->
       series_cell s n
       = default_cell dflt
           (if mem y YEARS then frame_cell (variable_frame YEARS data variable) n y
            else match py_float y with
                 | Some x => aligned (get_interp data variable x) n
                 | None => nan
                 end)).
Proof.
  intros Hy.
  destruct (init_from_variable YEARS get_interp py_float data sc vsc variable
              (Some (One y)) dflt) as [t [t' [f [v0 [Hinit [_ [_ [Hidx [Hcell Hv0]]]]]]]]].
  { intros z [<-|[]] Hn. destruct Hy as [Hy|Hy]; [contradiction | assumption]. }
  simpl in Hinit, Hcell, Hv0.
  set (col := map (fun r => (fst r, row_cell (columns f) (snd r) y)) (rows f)) in *.
  assert (Hcol_idx : map fst col = index f) by (unfold col, index; now rewrite map_map).
  assert (Hcol_cell : forall n, In n (index f) ->
            series_cell (mkSeries (Some y) col) n = frame_cell f n y).
  { intros n Hn. unfold series_cell, frame_cell, col. simpl.
    rewrite (assoc_map_snd (fun _ cells => row_cell (columns f) cells y)).
    apply assoc_Some_iff in Hn as [cells Hc]. now rewrite Hc. }
  set (s := match dflt with
            | Some d => mkSeries (Some y) (map (fun r => (fst r, fill_cell d (snd r))) col)
            | None => mkSeries (Some y) col
            end).
  assert (Hs_idx : sindex s = index f).
  { unfold s, sindex. destruct dflt; simpl; [rewrite map_map; simpl|]; exact Hcol_idx. }
  eexists _, _, s. split; [exact Hinit|]. simpl.
  split; [reflexivity|]. split; [subst v0; unfold s; now destruct dflt|].
  split; [unfold s; now destruct dflt|]. split; [now rewrite Hs_idx|].
  intros n Hn. rewrite Hs_idx in Hn.
  assert (Hf : frame_cell f n y
               = if mem y YEARS then frame_cell (variable_frame YEARS data variable) n y
                 else match py_float y with
                      | Some x => aligned (get_interp data variable x) n
                      | None => nan
                      end).
  { rewrite (Hcell n y (or_introl eq_refl)). destruct (mem y YEARS); [reflexivity|].
    destruct (py_float y); [|reflexivity]. apply mem_In in Hn. now rewrite Hn. }
  rewrite <- Hf, <- (Hcol_cell n Hn). unfold s. destruct dflt as [d|]; [|reflexivity].
  unfold default_cell.
  apply (series_cell_map_items (fun _ c => fill_cell d c) col (Some y) (Some y) n).
  now rewrite Hcol_idx.
Qed.

(** A variable the constructor returns has a table of the shape of its mode
    and carries the dataset, the two universes, the default and the variable
    name it was given. *)
Theorem init_keeps_arguments (d : Dataset) (sc vsc : Universe) (variable : option string)
    (year : option Arg) (values : option Values) (dflt : option cell) (v : Var) :
  snd (__init__ YEARS get_interp py_float d sc vsc variable year values dflt) = inr v ->
  var_wf v /\ data v = d /\ scenarios v = sc /\ vetted_scenarios v = vsc /\
  default v = dflt /\ _variable v = variable.
Proof.
  intros H. split; [exact (init_wf _ _ _ _ _ _ _ _ _ _ _ H)|].
  destruct variable as [variable|], values as [values|]; try discriminate.
  - destruct (unknown_years_parse_or_not
                (_to_list (match year with None => Many YEARS | Some y => y end) true))
      as [Hp|Hp].
    + destruct (init_from_variable YEARS get_interp py_float d sc vsc variable year dflt Hp)
        as [t [t' [f [v0 [Hi _]]]]].
      rewrite Hi in H. injection H as <-. simpl. auto.
    + destruct (init_from_variable_fails d sc vsc variable year dflt Hp)
        as [y [_ [_ [_ He]]]].
      congruence.
  - destruct (init_from_values YEARS get_interp py_float d sc vsc year values dflt)
      as [t [Hi _]].
    rewrite Hi in H. injection H as <-. simpl. auto.
Qed.

End ConstructionMore.

Lemma init_year_not_a_number_witness :
  exists y,
    snd (Example.new_var (Some "Other") (Some (Many ["2020"; "soon"])) None None)
    = inl (ValueError y).
Proof.
  destruct (proj2 (init_year_not_a_number Example.YEARS Example.get_interp Example.py_float
                     Example.dataset Example.universe Example.vetted "Other"
                     (Some (Many ["2020"; "soon"])) None)
              (ValueError "soon") eq_refl) as [y [_ [_ [_ E]]]].
  exists y. rewrite <- E. reflexivity.
Defined.

Lemma init_scalar_year_witness :
  exists tr v s,
    Example.new_var (Some "Other") (Some (One "2030")) None None = (tr, inr v) /\
    _year v = YSingle "2030" /\ _values v = VSeries s /\ sname s = Some "2030".
Proof.
  destruct (init_scalar_year Example.YEARS Example.get_interp Example.py_float
              Example.dataset Example.universe Example.vetted "Other" "2030" None)
    as [tr [v [s [Hi [Hy [Hv [Hn _]]]]]]].
  - left. simpl. auto.
  - exists tr, v, s. auto.
Defined.

Lemma init_keeps_arguments_witness :
  var_wf Example.other2030 /\ default Example.other2030 = Some 0%float.
Proof.
  destruct (init_keeps_arguments Example.YEARS Example.get_interp Example.py_float
              Example.dataset Example.universe Example.vetted (Some "Other")
              (Some (One "2030")) None (Some 0%float) Example.other2030 eq_refl)
    as [Hwf [_ [_ [_ [Hd _]]]]].
  split; assumption.
Defined.

(** ** Arithmetic: numbers, scalar mode, and what a result carries *)

Lemma var_wf_from_values (d : Dataset) (sc vsc : Universe) (variable : option string)
    (values : Values) (dflt : option cell) :
  var_wf (mkVar d sc vsc variable (values_year values) (apply_default dflt values) dflt).
Proof.
  unfold var_wf. destruct values as [f|s], dflt as [x|]; reflexivity.
Qed.

Section ArithmeticMore.

Variable YEARS : list string.
Variable get_interp : Dataset -> string -> cell -> list (string * cell).
Variable py_float : string -> option cell.


(** Between two scalar-mode variables an operator never raises.  The result is
    in scalar mode over the scenarios of both; its year token is the common
    token when the operands have the same one and the text "None" otherwise;
    its value at a scenario is the operation applied to the two values there,
    a missing result being replaced by the default of the left operand. *)
Theorem scalar_arith (op : binop) (v1 v2 : Var) (s1 s2 : Series) (y1 y2 : string) :
  _year v1 = YSingle y1 -> _values v1 = VSeries s1 -> sname s1 = Some y1 ->
  _year v2 = YSingle y2 -> _values v2 = VSeries s2 -> sname s2 = Some y2 ->
  exists r s,
    arith YEARS get_interp py_float op v1 (Variable_ v2) = inr r /\
    _values r = VSeries s /\
    _year r = YSingle (if String.eqb y1 y2 then y1 else "None") /\
    (forall n, In n (sindex s) <-> In n (sindex s1) \/ In n (sindex s2)) /\
    (forall n, In n (sindex s) ->
       series_cell s n
       = default_cell (default v1) (eval_op op (series_cell s1 n) (series_cell s2 n))).
Proof.
  intros Hy1 Hv1 Hn1 Hy2 Hv2 Hn2. rewrite arith_spec. unfold _check_and_harmonise_inputs.
  rewrite Hy1, Hy2, Hv1, Hv2. unfold ok. cbn [fst snd values_binop]. unfold series_binop.
  rewrite apply_default_stabulate. eexists _, _. split; [reflexivity|].
  cbn [_values _year values_year]. split; [reflexivity|]. split; [|split].
  - unfold stabulate. cbn [sname]. rewrite Hn1, Hn2. simpl.
    now destruct (String.eqb y1 y2).
  - intros n. unfold stabulate, sindex. cbn [items]. rewrite map_map. simpl.
    rewrite map_id. apply In_label_union.
  - intros n Hn. apply series_cell_stabulate.
    unfold stabulate, sindex in Hn. cbn [items] in Hn. rewrite map_map in Hn. simpl in Hn.
    now rewrite map_id in Hn.
Qed.

(** Whatever an operator returns is a variable like one from the constructor:
    its table has the shape of its mode, it carries the dataset, the
    universes and the default of the left operand, and it has no variable
    name.  So results can be selected and combined again. *)
Theorem arith_result_carries (op : binop) (v : Var) (other : Operand) (r : Var) :
  arith YEARS get_interp py_float op v other = inr r ->
  var_wf r /\ data r = data v /\ scenarios r = scenarios v /\
  vetted_scenarios r = vetted_scenarios v /\ default r = default v /\
  _variable r = None.
Proof.
  rewrite arith_spec. destruct (_check_and_harmonise_inputs v other) as [e|p];
    [discriminate|]. intros [= <-]. split; [apply var_wf_from_values|]. simpl. auto.
Qed.

(** When the left operand has a default that is a number, the result of an
    operator has no missing value, whatever the other operand holds. *)
Theorem arith_default_no_missing (op : binop) (v : Var) (other : Operand) (r : Var)
    (d : cell) :
  arith YEARS get_interp py_float op v other = inr r ->
  default v = Some d -> is_nan d = false ->
  has_missing (_values r) = false.
Proof.
  rewrite arith_spec. destruct (_check_and_harmonise_inputs v other) as [e|p];
    [discriminate|]. intros [= <-] Hd Hnan. cbn [_values]. rewrite Hd.
  now apply fillna_no_missing.
Qed.

End ArithmeticMore.


Lemma scalar_arith_witness :
  exists r,
    __sub__ Example.YEARS Example.get_interp Example.py_float Example.other2030
      (Variable_ Example.other2020) = inr r /\
    _year r = YSingle "None".
Proof.
  destruct (scalar_arith Example.YEARS Example.get_interp Example.py_float Sub
              Example.other2030 Example.other2020
              (mkSeries (Some "2030") [("M1 S1", 7%float)])
              (mkSeries (Some "2020") [("M1 S1", nan)]) "2030" "2020"
              eq_refl eq_refl eq_refl eq_refl eq_refl eq_refl)
    as [r [s [Hr [_ [Hy _]]]]].
  exists r. split; [exact Hr | exact Hy].
Defined.

Lemma arith_result_carries_witness :
  exists r,
    __add__ Example.YEARS Example.get_interp Example.py_float Example.energy0
      (Variable_ Example.other2030) = inr r /\
    var_wf r /\ default r = Some 0%float.
Proof.
  eexists. split; [reflexivity|].
  destruct (arith_result_carries Example.YEARS Example.get_interp Example.py_float Add
              Example.energy0 (Variable_ Example.other2030) _ eq_refl)
    as [Hwf [_ [_ [_ [Hd _]]]]].
  split; assumption.
Defined.

Lemma arith_default_no_missing_witness :
  exists r,
    __truediv__ Example.YEARS Example.get_interp Example.py_float Example.other2030
      (Number 0%float) = inr r /\
    has_missing (_values r) = false.
Proof.
  eexists. split; [reflexivity|].
  apply (arith_default_no_missing Example.YEARS Example.get_interp Example.py_float Div
           Example.other2030 (Number 0%float) _ 0%float); reflexivity.
Defined.

(** ** utils/importdata.py: units and derived variables *)

Lemma data_row_eta (r : DataRow) :
  mkDataRow (d_Name r) (d_Variable r) (d_Unit r) (d_years r) = r.
Proof. now destruct r. Qed.

(** [_convert_units] works row by row.  A row in Mt CO2/yr, kt N2O/yr or
    Mt CO2-equiv/yr has every year value multiplied by 0.001, once, and its unit
    set to Gt CO2/yr, Mt N2O/yr or Gt CO2-equiv/yr; any other row is left as
    it is.  The rows keep their order, names and variables. *)
Theorem convert_units_rows (data : Dataset) :
  _convert_units data
  = map (fun r => match converted_unit (d_Unit r) with
                  | Some u =>
                      mkDataRow (d_Name r) (d_Variable r) u
                        (map (fun c => (c * 0.001)%float) (d_years r))
                  | None => r
                  end) data.
Proof.
  unfold _convert_units, convert_unit, set_unit_where, scale_where. cbv zeta.
  rewrite !map_map. apply map_ext. intros [n v u ys]. cbn [d_Name d_Variable d_Unit d_years].
  unfold converted_unit.
  destruct (String.eqb_spec u "Mt CO2/yr") as [->|N1]; [reflexivity|].
  destruct (String.eqb_spec u "kt N2O/yr") as [->|N2]; [reflexivity|].
  destruct (String.eqb_spec u "Mt CO2-equiv/yr") as [->|N3]; [reflexivity|].
  apply String.eqb_neq in N1, N2, N3.
  repeat (cbn [d_Name d_Variable d_Unit d_years]; rewrite ?N1, ?N2, ?N3).
  reflexivity.
Qed.

Lemma converted_unit_final (u u' : string) :
  converted_unit u = Some u' -> converted_unit u' = None.
Proof.
  unfold converted_unit.
  destruct (String.eqb u "Mt CO2/yr"); [now intros [= <-]|].
  destruct (String.eqb u "kt N2O/yr"); [now intros [= <-]|].
  destruct (String.eqb u "Mt CO2-equiv/yr"); [now intros [= <-] | discriminate].
Qed.

(** After [_convert_units] no row is left in one of the three units it
    converts, so converting a second time changes nothing: no value is scaled
    twice. *)
Theorem convert_units_once (data : Dataset) :
  (forall r, In r (_convert_units data) -> converted_unit (d_Unit r) = None) /\
  _convert_units (_convert_units data) = _convert_units data.
Proof.
  assert (Hrows : forall l,
            _convert_units l
            = map (fun r => match converted_unit (d_Unit r) with
                            | Some u =>
                                mkDataRow (d_Name r) (d_Variable r) u
                                  (map (fun c => (c * 0.001)%float) (d_years r))
                            | None => r
                            end) l).
  { intros l. unfold _convert_units, convert_unit, set_unit_where, scale_where. cbv zeta.
    rewrite !map_map. apply map_ext. intros [n v u ys].
    cbn [d_Name d_Variable d_Unit d_years]. unfold converted_unit.
    destruct (String.eqb_spec u "Mt CO2/yr") as [->|N1]; [reflexivity|].
    destruct (String.eqb_spec u "kt N2O/yr") as [->|N2]; [reflexivity|].
    destruct (String.eqb_spec u "Mt CO2-equiv/yr") as [->|N3]; [reflexivity|].
    apply String.eqb_neq in N1, N2, N3.
    repeat (cbn [d_Name d_Variable d_Unit d_years]; rewrite ?N1, ?N2, ?N3).
    reflexivity. }
  assert (Hdone : forall r, In r (_convert_units data) -> converted_unit (d_Unit r) = None).
  { intros r Hr. rewrite Hrows in Hr. apply in_map_iff in Hr as [r0 [<- _]].
    destruct (converted_unit (d_Unit r0)) as [u|] eqn:E; simpl; [|exact E].
    exact (converted_unit_final _ _ E). }
  split; [exact Hdone|].
  rewrite (Hrows (_convert_units data)).
  rewrite <- (map_id (_convert_units data)) at 2. apply map_ext_in.
  intros r Hr. now rewrite (Hdone r Hr).
Qed.

Lemma rename_chain (v : string) :
  fold_left (fun v kv => if String.eqb v (fst kv) then snd kv else v) var_rename v
  = renamed v.
Proof.
  unfold renamed, var_rename. cbn [fold_left assoc fst snd].
  repeat match goal with
         | |- context [String.eqb v ?k] =>
             destruct (String.eqb_spec v k) as [->|?]; [reflexivity|]
         end.
  reflexivity.
Qed.

Lemma renamed_is_final (v : string) : assoc (renamed v) var_rename = None.
Proof.
  unfold renamed. destruct (assoc v var_rename) as [v'|] eqn:E; [|exact E].
  unfold var_rename in E. cbn [assoc] in E.
  repeat match type of E with
         | context [String.eqb v ?k] =>
             destruct (String.eqb v k); [injection E as <-; reflexivity|]
         end.
  discriminate.
Qed.

Lemma fold_set_variable (l : list (string * string)) (data : Dataset) :
  fold_left (fun data kv => set_variable_where (fst kv) (snd kv) data) l data
  = map (fun r => mkDataRow (d_Name r)
                    (fold_left (fun v kv => if String.eqb v (fst kv) then snd kv else v)
                               l (d_Variable r))
                    (d_Unit r) (d_years r)) data.
Proof.
  revert data. induction l as [|[k v] l IH]; intros data; simpl.
  - rewrite <- (map_id data) at 1. apply map_ext. intros r. symmetry. apply data_row_eta.
  - rewrite IH. unfold set_variable_where. rewrite map_map. apply map_ext. intros r.
    now destruct (String.eqb (d_Variable r) k).
Qed.

Section ImportDataFacts.

Variable create_variable :
  Dataset -> string -> string -> string -> string ->
  option cell -> option cell -> option string -> Dataset.
Variable KYOTO : string.

(** After the derived variables have been created, [_create_extra_variables]
    works row by row: the year values of a row whose variable name contains
    "CCS" change sign, and then a variable with a long name in [var_rename]
    gets its short name.  A short name is never renamed again, and rows keep
    their order, scenario and unit. *)
Theorem create_extra_variables_rows (data : Dataset) :
  _create_extra_variables create_variable KYOTO data
  = map (fun r => mkDataRow (d_Name r) (renamed (d_Variable r)) (d_Unit r)
                    (if contains "CCS" (d_Variable r)
                     then map (fun c => (c * (-1))%float) (d_years r)
                     else d_years r))
        (created_variables create_variable KYOTO data).
Proof.
  unfold _create_extra_variables. cbv zeta. rewrite fold_set_variable.
  unfold scale_where. rewrite map_map. apply map_ext. intros r.
  destruct (contains "CCS" (d_Variable r)); cbn [d_Name d_Variable d_Unit d_years];
    now rewrite rename_chain.
Qed.

(** No row keeps one of the long names: asked for a variable under its long
    name, the renamed table has no row for it. *)
Theorem create_extra_variables_old_names_gone (YEARS : list string) (data : Dataset)
    (k : string) :
  In k (keys var_rename) ->
  (forall r, In r (_create_extra_variables create_variable KYOTO data) -> d_Variable r <> k) /\
  rows (variable_frame YEARS (_create_extra_variables create_variable KYOTO data) k) = [].
Proof.
  intros Hk.
  assert (Hgone : forall r, In r (_create_extra_variables create_variable KYOTO data) ->
                            d_Variable r <> k).
  { intros r Hr E. unfold _create_extra_variables in Hr. cbv zeta in Hr.
    rewrite fold_set_variable in Hr. apply in_map_iff in Hr as [r0 [<- _]].
    cbn [d_Variable] in E. rewrite rename_chain in E.
    pose proof (renamed_is_final (d_Variable r0)) as Hfin. rewrite E in Hfin.
    apply assoc_None_iff in Hfin. contradiction. }
  split; [exact Hgone|].
  unfold variable_frame. cbn [rows]. rewrite filter_none_in; [reflexivity|].
  intros r Hr. destruct (String.eqb_spec (d_Variable r) k) as [E|E]; [|reflexivity].
  exfalso. exact (Hgone r Hr E).
Qed.

End ImportDataFacts.

(** A small table through both steps, with no variable derived: the biomass
    capture changes sign, is renamed and is converted to Gt CO2/yr. *)
Lemma convert_after_rename_example :
  _convert_units
    (_create_extra_variables (fun d _ _ _ _ _ _ _ => d) "Emissions|Kyoto Gases"
       [mkDataRow "M1 S1" "Carbon Sequestration|CCS|Biomass" "Mt CO2/yr" [1000%float; 2000%float];
        mkDataRow "M1 S1" "Population" "million" [7800%float; 8500%float]])
  = [mkDataRow "M1 S1" "BECCS" "Gt CO2/yr" [(-1)%float; (-2)%float];
     mkDataRow "M1 S1" "Population" "million" [7800%float; 8500%float]].
Proof. reflexivity. Qed.

Lemma create_extra_variables_old_names_gone_witness :
  rows (variable_frame Example.YEARS
          (_create_extra_variables (fun d _ _ _ _ _ _ _ => d) "Emissions|Kyoto Gases"
             Example.dataset)
          "Emissions|CO2|AFOLU") = [].
Proof.
  apply (create_extra_variables_old_names_gone (fun d _ _ _ _ _ _ _ => d)
           "Emissions|Kyoto Gases" Example.YEARS Example.dataset "Emissions|CO2|AFOLU").
  simpl. auto 10.
Defined.

Lemma convert_units_once_witness :
  converted_unit
    (d_Unit (hd (mkDataRow "" "" "" [])
                (_convert_units
                   [mkDataRow "M1 S1" "Emissions|CO2" "Mt CO2/yr" [35000%float];
                    mkDataRow "M1 S1" "Population" "million" [7800%float]])))
  = None.
Proof.
  apply (proj1 (convert_units_once
                  [mkDataRow "M1 S1" "Emissions|CO2" "Mt CO2/yr" [35000%float];
                   mkDataRow "M1 S1" "Population" "million" [7800%float]])).
  simpl. auto.
Defined.

(** ** [select] after an operation with a number *)

Lemma filter_map_fst {A B} (p : string -> bool) (g : string * A -> string * B)
    (l : list (string * A)) :
  (forall r, fst (g r) = fst r) ->
  filter (fun r => p (fst r)) (map g l) = map g (filter (fun r => p (fst r)) l).
Proof.
  intros Hg. induction l as [|r l IH]; simpl; [reflexivity|].
  rewrite Hg. destruct (p (fst r)); simpl; now rewrite IH.
Qed.

Lemma subset_frame_map_cells (h : cell -> cell) (v : Values) (selection : Universe) :
  subset_frame (map_cells h v) selection
  = mkFrame (columns (subset_frame v selection))
      (map (fun r => (fst r, map h (snd r))) (rows (subset_frame v selection))).
Proof.
  destruct v as [f|s]; simpl; f_equal.
  - apply (filter_map_fst (fun n => mem n (keys selection))
             (fun r : string * list cell => (fst r, map h (snd r)))).
    reflexivity.
  - rewrite (filter_map_fst (fun n => mem n (keys selection))
               (fun r : string * cell => (fst r, h (snd r)))) by reflexivity.
    now rewrite !map_map.
Qed.

Lemma flat_map_map_comm {A B C D} (F : B -> list D) (F' : A -> list C) (g : A -> B)
    (G : C -> D) (l : list A) :
  (forall r, F (g r) = map G (F' r)) ->
  flat_map F (map g l) = map G (flat_map F' l).
Proof.
  intros H. induction l as [|r l IH]; cbn [map flat_map]; [reflexivity|].
  now rewrite map_app, IH, H.
Qed.

Lemma merge_left_map_cells (h : cell -> cell) (cols : list string)
    (rws : list (string * list cell)) (selection : Universe) (extra : list string) :
  merge_left (mkFrame cols (map (fun r => (fst r, map h (snd r))) rws)) selection extra
  = map (sel_map_row h) (merge_left (mkFrame cols rws) selection extra).
Proof.
  unfold merge_left. cbn [rows]. apply flat_map_map_comm. intros r. cbn [fst snd].
  destruct (filter (fun m => String.eqb (fst m) (fst r)) selection) as [|m ms];
    [reflexivity|].
  now rewrite map_map.
Qed.

Lemma insert_row_map (g : SelRow -> SelRow) (r : SelRow) (l : list SelRow) :
  (forall x, sel_key (g x) = sel_key x) ->
  insert_row (g r) (map g l) = map g (insert_row r l).
Proof.
  intros Hg. induction l as [|x l IH]; simpl; [reflexivity|].
  rewrite !Hg. destruct (key_leb (sel_key r) (sel_key x)); simpl; [reflexivity|].
  now rewrite IH.
Qed.

Lemma sort_values_map (g : SelRow -> SelRow) (l : list SelRow) :
  (forall x, sel_key (g x) = sel_key x) ->
  sort_values (map g l) = map g (sort_values l).
Proof.
  intros Hg. induction l as [|x l IH]; simpl; [reflexivity|].
  rewrite IH. now apply insert_row_map.
Qed.

Section SelectComposed.

Variable YEARS : list string.
Variable IP_SCENARIOS : list (string * Marker).
Variable SSP_SCENARIOS : list (string * Marker).
Variable get_interp : Dataset -> string -> cell -> list (string * cell).
Variable py_float : string -> option cell.

(** [select] on a variable whose cells went through a function: the same
    error, or the same rows in the same order with the function applied to
    their cells. *)
Lemma select_map_cells (h : cell -> cell) (v v' : Var) (category ip ssp : option Arg)
    (curpol ndc : option unit) (vetted : bool) :
  scenarios v' = scenarios v -> vetted_scenarios v' = vetted_scenarios v ->
  _values v' = map_cells h (_values v) ->
  select IP_SCENARIOS SSP_SCENARIOS v' category ip ssp curpol ndc vetted
  = match select IP_SCENARIOS SSP_SCENARIOS v category ip ssp curpol ndc vetted with
    | inl e => inl e
    | inr t => inr (sel_map_cells h t)
    end.
Proof.
  intros Hsc Hvsc Hval. unfold select, apply_filters. rewrite Hsc, Hvsc.
  destruct (filter_category category
              (if vetted then vetted_scenarios v else scenarios v, [])) as [e|c];
    [reflexivity|]. cbn [bind].
  destruct (filter_ip IP_SCENARIOS ip c) as [e|i]; [reflexivity|]. cbn [bind].
  destruct (filter_ssp SSP_SCENARIOS (scenarios v) ssp i) as [e|st]; [reflexivity|].
  cbn [bind].
  destruct (not_implemented "CurPol" curpol) as [e|u1]; [reflexivity|]. cbn [bind].
  destruct (not_implemented "NDC" ndc) as [e|u2]; [reflexivity|]. cbn [bind].
  rewrite Hval, subset_frame_map_cells. cbn [columns].
  destruct (subset_frame (_values v) (fst st)) as [cols rws] eqn:Esub.
  cbn [columns rows]. rewrite merge_left_map_cells.
  rewrite (sort_values_map (sel_map_row h)) by reflexivity.
  destruct (_values v) as [f|s] eqn:Ev; cbn [map_cells]; [reflexivity|].
  unfold ok. cbn [sel_map_cells]. f_equal. f_equal. rewrite !map_map. apply map_ext_in.
  intros r Hr. unfold sel_map_row. cbn [sel_key sel_name sel_cells]. f_equal.
  apply In_sort_values, In_merge_left in Hr as [Hr _]. cbn [rows] in Hr.
  simpl in Esub. injection Esub as <- <-.
  apply in_map_iff in Hr as [x [[= _ Hx] _]]. rewrite <- Hx. reflexivity.
Qed.

(** Combining a variable with a number does not change what [select] picks:
    for the same arguments [select] on the result raises the same error or
    returns the same scenarios with the same keys in the same order, each cell
    being the operation applied to the cell and the number, with a missing
    result replaced by the default of the variable. *)
Theorem select_after_number (op : binop) (v r : Var) (x : cell)
    (category ip ssp : option Arg) (curpol ndc : option unit) (vetted : bool) :
  arith YEARS get_interp py_float op v (Number x) = inr r ->
  select IP_SCENARIOS SSP_SCENARIOS r category ip ssp curpol ndc vetted
  = match select IP_SCENARIOS SSP_SCENARIOS v category ip ssp curpol ndc vetted with
    | inl e => inl e
    | inr t => inr (sel_map_cells (fun c => default_cell (default v) (eval_op op c x)) t)
    end.
Proof.
  rewrite arith_spec. cbn [_check_and_harmonise_inputs fst snd values_binop].
  intros [= <-]. apply select_map_cells; try reflexivity.
  cbn [_values]. destruct (_values v) as [f|s], (default v) as [d|]; simpl; f_equal; f_equal;
    rewrite ?map_map; try reflexivity; apply map_ext; intros row; simpl;
    rewrite ?map_map; reflexivity.
Qed.

End SelectComposed.

Lemma select_after_number_witness :
  exists r,
    __mul__ Example.YEARS Example.get_interp Example.py_float Example.energy
      (Number 2%float) = inr r /\
    select Example.IP_SCENARIOS Example.SSP_SCENARIOS r
      (Some (One "all")) None None None None true
    = inr (SelFrame ["Category"; "Name"] ["2020"; "2030"]
             [mkSelRow [Some "C1"] "M1 S1" [2%float; 3%float]]).
Proof.
  eexists. split; [reflexivity|].
  rewrite (select_after_number Example.YEARS Example.IP_SCENARIOS Example.SSP_SCENARIOS
             Example.get_interp Example.py_float Mul Example.energy _ 2%float
             (Some (One "all")) None None None None true eq_refl).
  reflexivity.
Defined.
